(** * Aura-Code: the streaming orchestrator of [src/agent.py]

    A shallow embedding of the agent's message envelope ([Message]), its
    conversation history, the [send_feedback] generator and the [handler]
    dispatch, together with the [load_code] and [get_code_for_display] tools
    of [src/tools.py], and the properties of one feedback-processing cycle
    proved over it.

    Python dictionaries are finite maps ([gmap]); the generator's [yield]s,
    the tool calls it awaits and the exceptions that end it are threaded
    through a state-and-error monad whose state carries an ordered event log. *)

From Stdlib Require Import ZArith Ascii String.
From stdpp Require Import gmap strings list fin_maps.

Set Warnings "-clear-no-such-hyp".

Open Scope string_scope.
Open Scope list_scope.
Open Scope nat_scope.

(** ** Values crossing the JSON boundary

    [json.loads] results, envelope payloads and serialised envelopes. *)

#[local] Unset Elimination Schemes.
Inductive json : Type :=
  | JNull
  | JNum (n : Z)
  | JStr (s : string)
  | JArr (l : list json)
  | JObj (m : gmap string json).
#[local] Set Elimination Schemes.

(** A [dict] whose values are all strings, as a JSON object. *)
Definition str_dict (m : gmap string string) : json := JObj (JStr <$> m).

(** ** [MessageType] and [Message] (agent.py, lines 21-57) *)

Inductive MessageType : Type :=
  | INIT | USER | AGENT_PARTIAL | AGENT_FINAL | LOAD_CODE | EDIT_CODE
  | GET_CODE_FOR_DISPLAY | CODE_DISPLAY_RESPONSE
  | UPDATE_IN_PROGRESS | UPDATE_FILE | UPDATE_COMPLETED.

#[global] Instance MessageType_eq_dec : EqDecision MessageType.
Proof. solve_decision. Defined.

(** The enum member's [.value]. *)
Definition MessageType_value (t : MessageType) : string :=
  match t with
  | INIT => "init"
  | USER => "user"
  | AGENT_PARTIAL => "agent_partial"
  | AGENT_FINAL => "agent_final"
  | LOAD_CODE => "load_code"
  | EDIT_CODE => "edit_code"
  | GET_CODE_FOR_DISPLAY => "get_code_for_display"
  | CODE_DISPLAY_RESPONSE => "code_display_response"
  | UPDATE_IN_PROGRESS => "update_in_progress"
  | UPDATE_FILE => "update_file"
  | UPDATE_COMPLETED => "update_completed"
  end.

Record Message : Type := mkMessage {
  id : string;
  timestamp : Z;
  type : MessageType;
  data : json
}.

(** [Message.to_dict]. *)
Definition to_dict (m : Message) : gmap string json :=
  <["id" := JStr (id m)]>
    (<["type" := JStr (MessageType_value (type m))]>
      (<["data" := data m]>
        (<["timestamp" := JNum (timestamp m)]> ∅))).

(** Reading an envelope back: the fields a client inspects. *)
Definition dict_type (d : gmap string json) : option string :=
  match d !! "type" with Some (JStr s) => Some s | _ => None end.

Definition dict_id (d : gmap string json) : option string :=
  match d !! "id" with Some (JStr s) => Some s | _ => None end.

Definition dict_data (d : gmap string json) : option json := d !! "data".

(** ** [ToolType] (agent.py, lines 60-64) *)

Inductive ToolType : Type :=
  | T_CREATE_APP_ENVIRONMENT | T_LOAD_CODE | T_EDIT_CODE | T_GET_CODE_FOR_DISPLAY.

(** ** The generation backend's stream items

    [partial.plan.value], [partial.plan.state], [partial.files] with
    [file.path] and [file.content]. *)

Record Plan : Type := mkPlan { value : string; state : string }.
Record File : Type := mkFile { path : string; content : string }.
Record Partial : Type := mkPartial { plan : Plan; files : list File }.

(** What iterating the stream does: it yields [items] in order and then
    either ends or raises. *)
Record Stream : Type := mkStream { items : list Partial; raises : bool }.

(** One entry of [self.history] / one [ConvoMessage]. *)
Record Turn : Type := mkTurn { role : string; turn_content : string }.

(** ** The world around the agent

    Everything [agent.py] obtains from outside: the random identifiers of
    [uuid.uuid4], the clock of [time.time_ns], the sandbox server reached
    through [mcp_session] ([call_tool t args] is the decoded
    [json.loads(response.content[0].text)] of the call, absent when the call
    or the decoding raises) and the stream the generation backend opens for
    a request. *)

Record Env : Type := mkEnv {
  uuid4 : nat → string;
  time_ns : nat → Z;
  list_tools : option (list json);
  call_tool : ToolType → gmap string json → option json;
  EditCode : list Turn → string → list (string * json) → json → Stream
}.

(** Observable events of a run, in the order they happen: an envelope
    handed to the consumer, or a tool call sent to the sandbox server. *)
Inductive Event : Type :=
  | Yield (d : gmap string json)
  | ListTools
  | CallTool (name : ToolType) (arguments : gmap string json).

(** The [Agent] object's fields, the two counters that index the oracles,
    and the event log. *)
Record AgentState : Type := mkState {
  tools : list json;
  init_data : json;
  history : list Turn;
  uuid_calls : nat;
  clock_reads : nat;
  log : list Event
}.

Inductive Exn : Type :=
  | KeyError (key : string)
  | TypeError
  | ValueError
  | AttributeError
  | SessionError
  | ToolError (t : ToolType)
  | GenerationError.

Inductive result (A : Type) : Type :=
  | Ok (a : A)
  | Raise (e : Exn).
Arguments Ok {A} a.
Arguments Raise {A} e.

(** ** The state-and-exception monad of the embedding *)

Definition M (A : Type) : Type := AgentState → AgentState * result A.

Definition ret {A} (a : A) : M A := λ s, (s, Ok a).
Definition bind {A B} (m : M A) (k : A → M B) : M B :=
  λ s, match m s with
       | (s', Ok a) => k a s'
       | (s', Raise e) => (s', Raise e)
       end.
Definition raise {A} (e : Exn) : M A := λ s, (s, Raise e).
Definition get_state : M AgentState := λ s, (s, Ok s).
Definition emit (e : Event) : M unit :=
  λ s, (mkState (tools s) (init_data s) (history s) (uuid_calls s)
                (clock_reads s) (log s ++ [e]), Ok tt).

#[global] Instance M_ret : MRet M := @ret.
#[global] Instance M_bind : MBind M := λ A B k m, bind m k.

(** A [for] loop threading the loop body's local variables. *)
Fixpoint for_in {A L} (body : A → L → M L) (l : list A) (acc : L) : M L :=
  match l with
  | [] => ret acc
  | x :: rest => acc' ← body x acc; for_in body rest acc'
  end.

(** [d[k]] with a string key: a lookup on a dict, a [TypeError] on any
    other JSON value. *)
Definition getitem (d : json) (k : string) : M json :=
  match d with
  | JObj m => match m !! k with
              | Some v => mret v
              | None => raise (KeyError k)
              end
  | _ => raise TypeError
  end.

(** [str(uuid.uuid4())]. *)
Definition uuid4_str (env : Env) : M string :=
  λ s, (mkState (tools s) (init_data s) (history s) (S (uuid_calls s))
                (clock_reads s) (log s), Ok (uuid4 env (uuid_calls s))).

(** [time.time_ns()]. *)
Definition read_time_ns (env : Env) : M Z :=
  λ s, (mkState (tools s) (init_data s) (history s) (uuid_calls s)
                (S (clock_reads s)) (log s), Ok (time_ns env (clock_reads s))).

(** [Message.new] (agent.py, lines 42-49): [id or str(uuid.uuid4())] takes
    the supplied id unless it is [None] or the empty string, both falsy. *)
Definition Message_new (env : Env) (ty : MessageType) (d : json)
    (oid : option string) : M Message :=
  i ← match oid with
      | Some i => if decide (i = EmptyString) then uuid4_str env else mret i
      | None => uuid4_str env
      end;
  t ← read_time_ns env;
  mret (mkMessage i (t / 1000000)%Z ty d).

(** [yield Message.new(...).to_dict()]. *)
Definition yield_new (env : Env) (ty : MessageType) (d : json)
    (oid : option string) : M unit :=
  m ← Message_new env ty d oid; emit (Yield (to_dict m)).

(** ** The agent's tool calls (agent.py, lines 102-143) *)

Definition session_call_tool (env : Env) (name : ToolType)
    (arguments : gmap string json) : M json :=
  emit (CallTool name arguments);;
  match call_tool env name arguments with
  | Some r => mret r
  | None => raise (ToolError name)
  end.

Definition set_tools (ts : list json) : M unit :=
  λ s, (mkState ts (init_data s) (history s) (uuid_calls s)
                (clock_reads s) (log s), Ok tt).

Definition set_init_data (d : json) : M unit :=
  λ s, (mkState (tools s) d (history s) (uuid_calls s)
                (clock_reads s) (log s), Ok tt).

Definition load_tools (env : Env) : M unit :=
  emit ListTools;;
  match list_tools env with
  | Some ts => set_tools ts
  | None => raise SessionError
  end.

Definition create_app_environment (env : Env) : M unit :=
  r ← session_call_tool env T_CREATE_APP_ENVIRONMENT ∅;
  set_init_data r.

Definition init (env : Env) : M unit :=
  load_tools env;; create_app_environment env.

Definition load_code (env : Env) (sandbox_id : json) : M json :=
  session_call_tool env T_LOAD_CODE {[ "sandbox_id" := sandbox_id ]}.

Definition edit_code (env : Env) (sandbox_id : json)
    (code_map : gmap string string) : M json :=
  session_call_tool env T_EDIT_CODE
    (<["sandbox_id" := sandbox_id]> {[ "code_map" := str_dict code_map ]}).

Definition get_code_for_display (env : Env) (sandbox_id : json) : M json :=
  session_call_tool env T_GET_CODE_FOR_DISPLAY {[ "sandbox_id" := sandbox_id ]}.

(** ** Conversation history (agent.py, lines 145-164) *)

Definition add_to_history (user_feedback agent_plan : string) : M unit :=
  λ s, (mkState (tools s) (init_data s)
          ((history s ++ [mkTurn "user" user_feedback])
             ++ [mkTurn "assistant" agent_plan])
          (uuid_calls s) (clock_reads s) (log s), Ok tt).

Definition get_history : M (list Turn) := λ s, (s, Ok (history s)).

(** ** [send_feedback] (agent.py, lines 166-247) *)

(** What Python's iteration protocol makes of a decoded JSON value: a list
    gives its elements, a dict its keys, a string its characters; numbers
    and [None] are not iterable. *)
Definition json_iter (j : json) : option (list json) :=
  match j with
  | JArr l => Some l
  | JObj m => Some (JStr <$> (map_to_list m).*1)
  | JStr s => Some ((λ c, JStr (String c EmptyString)) <$> String.list_ascii_of_string s)
  | JNum _ | JNull => None
  end.

(** [a, b = v]. *)
Definition unpack2 (v : json) : M (json * json) :=
  match json_iter v with
  | Some [a; b] => mret (a, b)
  | Some _ => raise ValueError
  | None => raise TypeError
  end.

(** [code_map.items()]. *)
Definition dict_items (v : json) : M (list (string * json)) :=
  match v with
  | JObj m => mret (map_to_list m)
  | _ => raise AttributeError
  end.

(** Lines 232-240: the notification and the assignment are both inside the
    [if file.path not in new_code_map] guard. *)
Definition process_file (env : Env) (file_msg_id : string) (file : File)
    (new_code_map : gmap string string) : M (gmap string string) :=
  if decide (new_code_map !! path file = None) then
    yield_new env UPDATE_FILE
      (JObj {[ "text" := JStr ("Working on " +:+ path file) ]})
      (Some file_msg_id);;
    mret (<[path file := content file]> new_code_map)
  else mret new_code_map.

(** Lines 209-240: the body of [for partial in stream], on the loop's local
    variables [sent_plan] and [new_code_map]. *)
Definition process_partial (env : Env) (feedback plan_msg_id file_msg_id : string)
    (partial : Partial) (loc : bool * gmap string string)
    : M (bool * gmap string string) :=
  let sent_plan := loc.1 in
  let new_code_map := loc.2 in
  (if bool_decide (state (plan partial) ≠ "Complete") && negb sent_plan then
     yield_new env AGENT_PARTIAL
       (JObj {[ "text" := JStr (value (plan partial)) ]}) (Some plan_msg_id)
   else mret tt);;
  sent_plan' ←
    (if bool_decide (state (plan partial) = "Complete") && negb sent_plan then
       yield_new env AGENT_FINAL
         (JObj {[ "text" := JStr (value (plan partial)) ]}) (Some plan_msg_id);;
       add_to_history feedback (value (plan partial));;
       mret true
     else mret sent_plan);
  new_code_map' ← for_in (process_file env file_msg_id) (files partial) new_code_map;
  mret (sent_plan', new_code_map').

Definition send_feedback (env : Env) (feedback : string) : M unit :=
  yield_new env UPDATE_IN_PROGRESS (JObj ∅) None;;
  s ← get_state;
  sandbox_id ← getitem (init_data s) "sandbox_id";
  loaded ← load_code env sandbox_id;
  '(code_map, package_json) ← unpack2 loaded;
  code_files ← dict_items code_map;
  history ← get_history;
  let stream := EditCode env history feedback code_files package_json in
  plan_msg_id ← uuid4_str env;
  file_msg_id ← uuid4_str env;
  loc ← for_in (process_partial env feedback plan_msg_id file_msg_id)
               (items stream) (false, ∅);
  (if raises stream then raise GenerationError else mret tt);;
  s' ← get_state;
  sandbox_id' ← getitem (init_data s') "sandbox_id";
  edit_code env sandbox_id' loc.2;;
  yield_new env UPDATE_COMPLETED (JObj ∅) None.

(** ** [handler] (agent.py, lines 267-284) *)

Inductive Response : Type :=
  | Envelope (d : gmap string json)
  | FeedbackGenerator (text : json)
  | EmptyDict.

Definition handler (env : Env) (msg : gmap string json) : M Response :=
  match msg !! "type" with
  | Some (JStr "user") =>
      d ← getitem (JObj msg) "data";
      text ← getitem d "text";
      mret (FeedbackGenerator text)
  | Some (JStr "init") =>
      init env;;
      s ← get_state;
      m ← Message_new env INIT (init_data s) None;
      mret (Envelope (to_dict m))
  | Some (JStr "load_code") =>
      d ← getitem (JObj msg) "data";
      sandbox_id ← getitem d "sandbox_id";
      code_map ← load_code env sandbox_id;
      m ← Message_new env LOAD_CODE code_map None;
      mret (Envelope (to_dict m))
  | Some (JStr "get_code_for_display") =>
      d ← getitem (JObj msg) "data";
      sandbox_id ← getitem d "sandbox_id";
      code_data ← get_code_for_display env sandbox_id;
      m ← Message_new env CODE_DISPLAY_RESPONSE code_data None;
      mret (Envelope (to_dict m))
  | _ => mret EmptyDict
  end.

(** ** The [load_code] tool (tools.py, lines 77-108)

    The sandbox's file system below the code root is a tree of directory
    entries as [sandbox.fs.list_files] lists them: a name and either the
    file's bytes or the directory's own entries. Entry names are single path
    components, for which [Path(dir_path) / file.name] is the two strings
    joined by a separator. *)

#[local] Unset Elimination Schemes.
Inductive FsEntry : Type :=
  | FsFile (name : string) (bytes : string)
  | FsDir (name : string) (children : list FsEntry).
#[local] Set Elimination Schemes.

Record Sandbox : Type := mkSandbox {
  app_src : list FsEntry;
  package_json_file : option string
}.

Definition DEFAULT_CODE_PATH : string := "/app/src".
Definition DEFAULT_PROJECT_ROOT : string := "/app".

Definition path_join (dir_path name : string) : string :=
  dir_path +:+ "/" +:+ name.

(** One iteration of the loop in [_process_directory], on the closure's
    [file_map]; a directory entry runs the loop over its own listing. *)
Fixpoint process_entry (dir_path : string) (file : FsEntry)
    (file_map : gmap string string) : gmap string string :=
  match file with
  | FsDir name children =>
      fold_left (λ fm c, process_entry (path_join dir_path name) c fm)
                children file_map
  | FsFile name bytes => <[path_join dir_path name := bytes]> file_map
  end.

Definition _process_directory (dir_path : string) (listing : list FsEntry)
    (file_map : gmap string string) : gmap string string :=
  fold_left (λ fm c, process_entry dir_path c fm) listing file_map.

(** [load_code(sandbox_id)]: [None] when connecting or a download raises. *)
Definition tools_load_code (remote : gmap string Sandbox) (sandbox_id : string)
    : option (gmap string string * string) :=
  sandbox ← remote !! sandbox_id;
  let file_map := _process_directory DEFAULT_CODE_PATH (app_src sandbox) ∅ in
  package_json ← package_json_file sandbox;
  Some (file_map, package_json).

(** The tool's returned tuple as the agent decodes it: a two-element JSON
    array, the shape line 184 of agent.py unpacks. *)
Definition tool_response (r : gmap string string * string) : json :=
  JArr [str_dict r.1; JStr r.2].

(** The sandbox server answers [load_code] calls by running the tool. *)
Definition serves_load_code (env : Env) (remote : gmap string Sandbox) : Prop :=
  ∀ sandbox_id : string,
    call_tool env T_LOAD_CODE {[ "sandbox_id" := JStr sandbox_id ]}
    = tool_response <$> tools_load_code remote sandbox_id.

(** A file of the tree below [dir_path], with its full path and bytes. *)
Inductive file_in : string → FsEntry → string → string → Prop :=
  | file_in_file dir_path name bytes :
      file_in dir_path (FsFile name bytes) (path_join dir_path name) bytes
  | file_in_dir dir_path name children c k v :
      c ∈ children →
      file_in (path_join dir_path name) c k v →
      file_in dir_path (FsDir name children) k v.

(** ** A concrete sandbox

    One file and one directory with a file under the code root, and a
    [uuid4] that never repeats. *)

Definition demo_uuid (k : nat) : string :=
  String.string_of_list_ascii
    (String.list_ascii_of_string "00000000-0000-4000-8000-" ++ replicate (S k) "a"%char).

Definition demo_sandbox : Sandbox :=
  mkSandbox
    [FsFile "App.tsx" "export default App";
     FsDir "components" [FsFile "Button.tsx" "export const Button"]]
    (Some "{}").

Definition demo_remote : gmap string Sandbox := {[ "sb-1" := demo_sandbox ]}.

(** ** Observations on a run *)

(** The envelopes handed to the consumer, in order. *)
Definition emitted (evs : list Event) : list (gmap string json) :=
  omap (λ e, match e with Yield d => Some d | _ => None end) evs.

(** The arguments of the [edit_code] tool calls, in order. *)
Definition edit_calls (evs : list Event) : list (gmap string json) :=
  omap (λ e, match e with CallTool T_EDIT_CODE a => Some a | _ => None end) evs.

(** How many envelopes of a given type a list holds. *)
Definition count_type (t : MessageType) (ds : list (gmap string json)) : nat :=
  length (filter (λ o, o = Some (MessageType_value t)) (dict_type <$> ds)).

(** One cycle: [send_feedback] consumed to its end from agent state [s]. *)
Definition cycle_events (env : Env) (feedback : string) (s : AgentState) : list Event :=
  drop (length (log s)) (log (send_feedback env feedback s).1).

Definition cycle_emitted (env : Env) (feedback : string) (s : AgentState) :=
  emitted (cycle_events env feedback s).

Definition cycle_writes (env : Env) (feedback : string) (s : AgentState) :=
  edit_calls (cycle_events env feedback s).

Definition cycle_result (env : Env) (feedback : string) (s : AgentState) : result unit :=
  (send_feedback env feedback s).2.

Definition cycle_history (env : Env) (feedback : string) (s : AgentState) : list Turn :=
  history (send_feedback env feedback s).1.

(** The load stage of a cycle goes through: [init_data] holds a sandbox id
    and the [load_code] call answers with a pair whose first component is a
    dict. *)
Definition loads (env : Env) (s : AgentState) (sid : json)
    (code_map : gmap string json) (package_json : json) : Prop :=
  ∃ m, init_data s = JObj m ∧ m !! "sandbox_id" = Some sid ∧
       call_tool env T_LOAD_CODE {[ "sandbox_id" := sid ]}
       = Some (JArr [JObj code_map; package_json]).

(** The stream such a cycle iterates. *)
Definition cycle_stream (env : Env) (feedback : string) (s : AgentState)
    (code_map : gmap string json) (package_json : json) : Stream :=
  EditCode env (history s) feedback (map_to_list code_map) package_json.

(** ** A trace logic for the monad

    [runs m s tr turns r]: from state [s], [m] ends with [r], appends to the
    log events described by [tr], appends [turns] to the history, leaves
    [init_data] alone and draws one [uuid4] per envelope that needs an id.
    A described envelope fixes type and payload, and the id when a
    non-empty one is supplied. *)

Inductive AEvent : Type :=
  | ANew (ty : MessageType) (d : json) (oid : option string)
  | ALit (e : Event).

Definition matches (a : AEvent) (e : Event) : Prop :=
  match a with
  | ANew ty d oid =>
      ∃ m, e = Yield (to_dict m) ∧ type m = ty ∧ data m = d ∧
           (∀ i, oid = Some i → i ≠ EmptyString → id m = i)
  | ALit e' => e = e'
  end.

(** Described envelopes whose id is drawn from [uuid.uuid4]. *)
Definition draws_id (a : AEvent) : bool :=
  match a with
  | ANew _ _ None => true
  | ANew _ _ (Some i) => bool_decide (i = EmptyString)
  | ALit _ => false
  end.

Fixpoint draws (tr : list AEvent) : nat :=
  match tr with
  | [] => 0
  | a :: rest => (if draws_id a then 1 else 0) + draws rest
  end.

Definition runs {A} (m : M A) (s : AgentState) (tr : list AEvent)
    (turns : list Turn) (r : result A) : Prop :=
  ∃ s' evs, m s = (s', r) ∧ log s' = log s ++ evs ∧ Forall2 matches tr evs ∧
            history s' = history s ++ turns ∧ init_data s' = init_data s ∧
            uuid_calls s' = uuid_calls s + draws tr.

(** ** What the streaming loop computes

    The loop's effect on its local variables, the envelopes it yields and
    the turns it appends, as functions of the items consumed. *)

Definition first_wins (file : File) (new_code_map : gmap string string)
    : gmap string string :=
  if decide (new_code_map !! path file = None)
  then <[path file := content file]> new_code_map
  else new_code_map.

Definition file_trace (fid : string) (file : File)
    (new_code_map : gmap string string) : list AEvent :=
  if decide (new_code_map !! path file = None)
  then [ANew UPDATE_FILE (JObj {[ "text" := JStr ("Working on " +:+ path file) ]})
             (Some fid)]
  else [].

Fixpoint files_map (fs : list File) (ncm : gmap string string) : gmap string string :=
  match fs with
  | [] => ncm
  | f :: rest => files_map rest (first_wins f ncm)
  end.

Fixpoint files_trace (fid : string) (fs : list File) (ncm : gmap string string)
    : list AEvent :=
  match fs with
  | [] => []
  | f :: rest => file_trace fid f ncm ++ files_trace fid rest (first_wins f ncm)
  end.

Definition finalises (p : Partial) (sent_plan : bool) : bool :=
  bool_decide (state (plan p) = "Complete") && negb sent_plan.

Definition plan_trace (pid : string) (p : Partial) (sent_plan : bool) : list AEvent :=
  (if bool_decide (state (plan p) ≠ "Complete") && negb sent_plan
   then [ANew AGENT_PARTIAL (JObj {[ "text" := JStr (value (plan p)) ]}) (Some pid)]
   else [])
  ++ (if finalises p sent_plan
      then [ANew AGENT_FINAL (JObj {[ "text" := JStr (value (plan p)) ]}) (Some pid)]
      else []).

Definition plan_turns (feedback : string) (p : Partial) (sent_plan : bool) : list Turn :=
  if finalises p sent_plan
  then [mkTurn "user" feedback; mkTurn "assistant" (value (plan p))]
  else [].

Definition partial_loc (p : Partial) (loc : bool * gmap string string)
    : bool * gmap string string :=
  (if finalises p loc.1 then true else loc.1, files_map (files p) loc.2).

Fixpoint stream_loc (ps : list Partial) (loc : bool * gmap string string)
    : bool * gmap string string :=
  match ps with
  | [] => loc
  | p :: rest => stream_loc rest (partial_loc p loc)
  end.

Fixpoint stream_trace (pid fid : string) (ps : list Partial)
    (loc : bool * gmap string string) : list AEvent :=
  match ps with
  | [] => []
  | p :: rest =>
      (plan_trace pid p loc.1 ++ files_trace fid (files p) loc.2)
        ++ stream_trace pid fid rest (partial_loc p loc)
  end.

Fixpoint stream_turns (feedback : string) (ps : list Partial) (sent_plan : bool)
    : list Turn :=
  match ps with
  | [] => []
  | p :: rest =>
      plan_turns feedback p sent_plan
        ++ stream_turns feedback rest (if finalises p sent_plan then true else sent_plan)
  end.

(** ** The whole cycle

    [ends m s tr turns r] is [runs] without the bookkeeping: what a consumer
    and the sandbox server observe of [m], and what it leaves in history. *)

Definition ends {A} (m : M A) (s : AgentState) (tr : list AEvent)
    (turns : list Turn) (r : result A) : Prop :=
  ∃ s' evs, m s = (s', r) ∧ log s' = log s ++ evs ∧ Forall2 matches tr evs ∧
            history s' = history s ++ turns.

Definition edit_arguments (sid : json) (ncm : gmap string string) : gmap string json :=
  <["sandbox_id" := sid]> {[ "code_map" := str_dict ncm ]}.

(** What follows the loop (agent.py, lines 242-247, and the stream's end). *)
Definition cycle_tail (env : Env) (sid : json) (st : Stream)
    (ncm : gmap string string) : list AEvent * result unit :=
  if raises st then ([], Raise GenerationError)
  else match call_tool env T_EDIT_CODE (edit_arguments sid ncm) with
       | Some _ => ([ALit (CallTool T_EDIT_CODE (edit_arguments sid ncm));
                     ANew UPDATE_COMPLETED (JObj ∅) None], Ok tt)
       | None => ([ALit (CallTool T_EDIT_CODE (edit_arguments sid ncm))],
                  Raise (ToolError T_EDIT_CODE))
       end.

(** The ids the cycle allocates on lines 205-206: the first [uuid4] draw
    goes to the [update_in_progress] envelope. *)
Definition plan_msg_id (env : Env) (s : AgentState) : string := uuid4 env (S (uuid_calls s)).
Definition file_msg_id (env : Env) (s : AgentState) : string := uuid4 env (S (S (uuid_calls s))).

Definition cycle_trace (env : Env) (feedback : string) (s : AgentState)
    (sid : json) (st : Stream) : list AEvent :=
  [ANew UPDATE_IN_PROGRESS (JObj ∅) None;
   ALit (CallTool T_LOAD_CODE {[ "sandbox_id" := sid ]})]
  ++ stream_trace (plan_msg_id env s) (file_msg_id env s) (items st) (false, ∅)
  ++ (cycle_tail env sid st (stream_loc (items st) (false, ∅)).2).1.

(** How the load stage (agent.py, lines 184-189) can stop a cycle: the
    events after [update_in_progress] and the exception. *)
Inductive load_failure (env : Env) (s : AgentState) : list AEvent → Exn → Prop :=
  | lf_not_dict :
      (∀ m, init_data s ≠ JObj m) → load_failure env s [] TypeError
  | lf_no_key m :
      init_data s = JObj m → m !! "sandbox_id" = None →
      load_failure env s [] (KeyError "sandbox_id")
  | lf_call m sid e :
      init_data s = JObj m → m !! "sandbox_id" = Some sid →
      e ∈ [ToolError T_LOAD_CODE; ValueError; TypeError; AttributeError] →
      load_failure env s [ALit (CallTool T_LOAD_CODE {[ "sandbox_id" := sid ]})] e.

(** The envelope types and the [edit_code] calls a trace describes. *)
Definition a_types (tr : list AEvent) : list MessageType :=
  omap (λ a, match a with ANew ty _ _ => Some ty | ALit _ => None end) tr.

Definition a_edits (tr : list AEvent) : list (gmap string json) :=
  omap (λ a, match a with
             | ALit (CallTool T_EDIT_CODE args) => Some args
             | _ => None
             end) tr.

Definition a_count (t : MessageType) (tr : list AEvent) : nat :=
  length (filter (λ ty, ty = t) (a_types tr)).

(** Adequacy: traces describe envelopes that are made by [Message.new]. *)
Definition made_by_new (tr : list AEvent) : Prop :=
  ∀ a, a ∈ tr → match a with ALit (Yield _) => False | _ => True end.

(** ** Vocabulary of the statements *)

Definition is_complete (p : Partial) : bool :=
  bool_decide (state (plan p) = "Complete").

(** Every file entry of the consumed items, in arrival order. *)
Fixpoint all_files (ps : list Partial) : list File :=
  match ps with
  | [] => []
  | p :: rest => files p ++ all_files rest
  end.

(** The turns a cycle owes to the first completed plan, if any. *)
Definition first_complete_turns (feedback : string) (ps : list Partial) : list Turn :=
  match find is_complete ps with
  | Some p => [mkTurn "user" feedback; mkTurn "assistant" (value (plan p))]
  | None => []
  end.

(** ** A concrete world

    A sandbox server holding [demo_sandbox] under the id ["sb-1"], and a
    generation backend whose stream sends the file [src/App.tsx] twice with
    different content before it ends. *)

Definition demo_call_tool (t : ToolType) (arguments : gmap string json) : option json :=
  match t with
  | T_LOAD_CODE =>
      match arguments !! "sandbox_id" with
      | Some (JStr sid) => tool_response <$> tools_load_code demo_remote sid
      | _ => None
      end
  | T_EDIT_CODE => Some (JObj {[ "sandbox_id" := JStr "sb-1" ]})
  | T_CREATE_APP_ENVIRONMENT =>
      Some (JObj (<["url" := JStr "https://sb-1.example"]> {[ "sandbox_id" := JStr "sb-1" ]}))
  | T_GET_CODE_FOR_DISPLAY => None
  end.

Definition demo_items : list Partial :=
  [ mkPartial (mkPlan "Edit" "Incomplete") [];
    mkPartial (mkPlan "Edit the app" "Complete") [mkFile "src/App.tsx" "first draft"];
    mkPartial (mkPlan "Edit the app" "Complete") [mkFile "src/App.tsx" "second draft"] ].

Definition demo_env : Env :=
  mkEnv demo_uuid (λ k, 1700000000000000000 + Z.of_nat k)%Z (Some [])
        demo_call_tool (λ _ _ _ _, mkStream demo_items false).

(** The same world with a backend whose stream raises after its items. *)
Definition demo_env_raising : Env :=
  mkEnv demo_uuid (λ k, 1700000000000000000 + Z.of_nat k)%Z (Some [])
        demo_call_tool (λ _ _ _ _, mkStream demo_items true).

(** An agent after a successful [init], and one before any [init]. *)
Definition demo_state : AgentState :=
  mkState [] (JObj (<["url" := JStr "https://sb-1.example"]> {[ "sandbox_id" := JStr "sb-1" ]}))
          [] 0 0 [].

Definition fresh_state : AgentState := mkState [] (JObj ∅) [] 0 0 [].

Definition demo_code_map : gmap string json :=
  JStr <$> (<["/app/src/components/Button.tsx" := "export const Button"]>
              {[ "/app/src/App.tsx" := "export default App" ]}).

Definition demo_load_msg : gmap string json :=
  <["type" := JStr "load_code"]> {[ "data" := JObj {[ "sandbox_id" := JStr "sb-1" ]} ]}.

(** A backend whose stream is the single item [Done]/[Complete] without
    files, and a sandbox server that knows no sandbox. *)
Definition done_env : Env :=
  mkEnv demo_uuid (λ k, 1700000000000000000 + Z.of_nat k)%Z (Some [])
        demo_call_tool
        (λ _ _ _ _, mkStream [mkPartial (mkPlan "Done" "Complete") []] false).

Definition lost_env : Env :=
  mkEnv demo_uuid (λ k, 1700000000000000000 + Z.of_nat k)%Z (Some [])
        (λ _ _, None) (λ _ _ _ _, mkStream demo_items false).

(** ** Further vocabulary: requests, payloads, time and sessions *)

(** The tool calls among the events, in order. *)
Definition tool_calls (evs : list Event) : list (ToolType * gmap string json) :=
  omap (λ e, match e with CallTool n a => Some (n, a) | _ => None end) evs.

(** The payload [{"text": v}]. *)
Definition text_payload (v : string) : json := JObj {[ "text" := JStr v ]}.

(** What a client reads of an envelope besides id and time. *)
Definition shape (d : gmap string json) : option string * option json :=
  (dict_type d, dict_data d).

Definition dict_timestamp (d : gmap string json) : option Z :=
  match d !! "timestamp" with Some (JNum n) => Some n | _ => None end.

(** The envelopes that carry the plan. *)
Definition plan_envelopes (ds : list (gmap string json)) : list (gmap string json) :=
  filter (λ d, dict_type d = Some "agent_partial" ∨ dict_type d = Some "agent_final") ds.

Definition file_envelopes (ds : list (gmap string json)) : list (gmap string json) :=
  filter (λ d, dict_type d = Some "update_file") ds.

(** The items that precede the first completed plan. *)
Fixpoint before_complete (ps : list Partial) : list Partial :=
  match ps with
  | [] => []
  | p :: rest => if is_complete p then [] else p :: before_complete rest
  end.

(** A list of paths without the repetitions of a path already met. *)
Fixpoint first_seen (seen : gset string) (l : list string) : list string :=
  match l with
  | [] => []
  | x :: rest =>
      if decide (x ∈ seen) then first_seen seen rest
      else x :: first_seen ({[x]} ∪ seen) rest
  end.

(** The clock read [k], in milliseconds. *)
Definition time_ms (env : Env) (k : nat) : Z := (time_ns env k / 1000000)%Z.

(** A computation that stamps every envelope it yields with its own clock
    read: from any state, the yields it appends bear the successive reads
    that it makes. *)
Definition ticking (env : Env) {A} (m : M A) : Prop :=
  ∀ s, ∃ evs,
    log (m s).1 = log s ++ evs
    ∧ clock_reads (m s).1 = clock_reads s + length (emitted evs)
    ∧ dict_timestamp <$> emitted evs
      = (λ k, Some (time_ms env k)) <$> seq (clock_reads s) (length (emitted evs)).

(** Several cycles in a row on one agent, each consumed to its end. *)
Fixpoint run_cycles (env : Env) (feedbacks : list string) (s : AgentState) : AgentState :=
  match feedbacks with
  | [] => s
  | feedback :: rest => run_cycles env rest (send_feedback env feedback s).1
  end.

(** A history made of user turns each followed by an assistant turn. *)
Fixpoint paired (h : list Turn) : Prop :=
  match h with
  | [] => True
  | u :: a :: rest => role u = "user" ∧ role a = "assistant" ∧ paired rest
  | _ => False
  end.

(** A sandbox server that also answers [get_code_for_display]. *)
Definition display_reply : json :=
  JObj (<["sandbox_id" := JStr "sb-1"]>
          {[ "files" := JObj {[ "App.tsx" := JStr "export default App" ]} ]}).

Definition display_env : Env :=
  mkEnv demo_uuid (λ k, 1700000000000000000 + Z.of_nat k)%Z (Some [])
        (λ t a, match t with
                | T_GET_CODE_FOR_DISPLAY => Some display_reply
                | _ => demo_call_tool t a
                end)
        (λ _ _ _ _, mkStream demo_items false).

(** The tool calls and the envelopes (type and payload) a trace describes. *)
Definition a_calls (tr : list AEvent) : list (ToolType * gmap string json) :=
  omap (λ a, match a with ALit (CallTool n args) => Some (n, args) | _ => None end) tr.

Definition a_envs (tr : list AEvent) : list (MessageType * json) :=
  omap (λ a, match a with ANew ty d _ => Some (ty, d) | ALit _ => None end) tr.

Definition a_shape (x : MessageType * json) : option string * option json :=
  (Some (MessageType_value x.1), Some x.2).

Definition is_plan_type (ty : MessageType) : Prop := ty = AGENT_PARTIAL ∨ ty = AGENT_FINAL.

(** The plan envelopes and the file envelopes the loop owes to its items. *)
Definition plan_shapes (ps : list Partial) : list (MessageType * json) :=
  ((λ p, (AGENT_PARTIAL, text_payload (value (plan p)))) <$> before_complete ps)
  ++ match find is_complete ps with
     | Some p => [(AGENT_FINAL, text_payload (value (plan p)))]
     | None => []
     end.

Definition file_shapes (seen : gset string) (fs : list File) : list (MessageType * json) :=
  (λ p, (UPDATE_FILE, text_payload ("Working on " +:+ p))) <$> first_seen seen (path <$> fs).

(** ** Well-formed sandbox trees

    What a file system guarantees of a listing: no separator inside a name
    and no name twice in one directory. *)

Definition entry_name (e : FsEntry) : string :=
  match e with FsFile name _ => name | FsDir name _ => name end.

Fixpoint slash_free (s : string) : Prop :=
  match s with
  | EmptyString => True
  | String c rest => c ≠ "/"%char ∧ slash_free rest
  end.

#[local] Unset Elimination Schemes.
Inductive wf_entry : FsEntry → Prop :=
  | wf_file name bytes : slash_free name → wf_entry (FsFile name bytes)
  | wf_dir name children :
      slash_free name →
      NoDup (entry_name <$> children) →
      Forall wf_entry children →
      wf_entry (FsDir name children).
#[local] Set Elimination Schemes.

Definition wf_listing (listing : list FsEntry) : Prop :=
  NoDup (entry_name <$> listing) ∧ Forall wf_entry listing.

(** ** The [get_code_for_display] tool (tools.py, lines 137-186)

    Here listing a directory and reading a file may raise, and the tool
    catches it: a directory entry has its listing or none, a file entry its
    decoded text or none. Entry names are single path components, as for
    [load_code], so that the final component of [Path(dir_path) / file.name]
    is the name itself. *)

#[local] Unset Elimination Schemes.
Inductive DEntry : Type :=
  | DFile (name : string) (text : option string)
  | DDir (name : string) (listing : option (list DEntry)).
#[local] Set Elimination Schemes.

Record DSandbox : Type := mkDSandbox {
  d_app_src : option (list DEntry);
  d_package_json : option string
}.

(** [str.rfind('.')]. *)
Fixpoint rfind_dot (s : string) : option nat :=
  match s with
  | EmptyString => None
  | String c rest =>
      match rfind_dot rest with
      | Some i => Some (S i)
      | None => if decide (c = "."%char) then Some 0 else None
      end
  end.

(** [s[i:]]. *)
Fixpoint string_drop (i : nat) (s : string) : string :=
  match i, s with
  | S k, String _ rest => string_drop k rest
  | _, _ => s
  end.

(** [PurePath.suffix] of a path whose final component is [name]: the part
    from the last dot on, unless that dot starts or ends the name. *)
Definition suffix (name : string) : string :=
  match rfind_dot name with
  | Some i =>
      if decide (0 < i ∧ i < String.length name - 1) then string_drop i name
      else EmptyString
  | None => EmptyString
  end.

(** [s.replace(old, new)] for a non-empty [old]: occurrences are replaced
    from the left and do not overlap; [skip] counts the characters of the
    occurrence being replaced that are still to be passed over. *)
Fixpoint str_replace_go (old new : string) (skip : nat) (s : string) : string :=
  match s with
  | EmptyString => EmptyString
  | String c rest =>
      match skip with
      | S k => str_replace_go old new k rest
      | 0 =>
          if String.prefix old s
          then new +:+ str_replace_go old new (String.length old - 1) rest
          else String c (str_replace_go old new 0 rest)
      end
  end.

Definition str_replace (old new s : string) : string := str_replace_go old new 0 s.

Definition display_suffixes : list string :=
  [".tsx"; ".ts"; ".jsx"; ".js"; ".css"; ".json"; ".html"].

Definition relative_path (full_path : string) : string :=
  str_replace (DEFAULT_CODE_PATH +:+ "/") EmptyString full_path.

(** One iteration of the display tool's loop over a listing. *)
Fixpoint display_entry (dir_path : string) (file : DEntry)
    (file_map : gmap string string) : gmap string string :=
  match file with
  | DDir name listing =>
      match listing with
      | Some children =>
          fold_left (λ fm c, display_entry (path_join dir_path name) c fm)
                    children file_map
      | None => file_map
      end
  | DFile name text =>
      if decide (suffix name ∈ display_suffixes) then
        match text with
        | Some file_content =>
            <[relative_path (path_join dir_path name) := file_content]> file_map
        | None => file_map
        end
      else file_map
  end.

Definition display_directory (dir_path : string) (listing : option (list DEntry))
    (file_map : gmap string string) : gmap string string :=
  match listing with
  | Some children => fold_left (λ fm c, display_entry dir_path c fm) children file_map
  | None => file_map
  end.

(** The [files] of the reply: the walk, then [package.json] if readable. *)
Definition display_files (sandbox : DSandbox) : gmap string string :=
  let file_map := display_directory DEFAULT_CODE_PATH (d_app_src sandbox) ∅ in
  match d_package_json sandbox with
  | Some package_json => <["package.json" := package_json]> file_map
  | None => file_map
  end.

(** [get_code_for_display(sandbox_id)]: [None] when connecting raises. *)
Definition tools_get_code_for_display (remote : gmap string DSandbox)
    (sandbox_id : string) : option json :=
  sandbox ← remote !! sandbox_id;
  Some (JObj (<["sandbox_id" := JStr sandbox_id]>
                {[ "files" := str_dict (display_files sandbox) ]})).

(** A readable file of the tree below [dir_path] that the display tool
    shows, with its full path and text. *)
Inductive shown_in : string → DEntry → string → string → Prop :=
  | shown_file dir_path name text :
      suffix name ∈ display_suffixes →
      shown_in dir_path (DFile name (Some text)) (path_join dir_path name) text
  | shown_dir dir_path name children c k v :
      c ∈ children →
      shown_in (path_join dir_path name) c k v →
      shown_in dir_path (DDir name (Some children)) k v.

(** [old] occurs somewhere in [s]. *)
Fixpoint occurs (old s : string) : bool :=
  String.prefix old s
  || match s with
     | EmptyString => false
     | String _ rest => occurs old rest
     end.

Definition demo_dsandbox : DSandbox :=
  mkDSandbox
    (Some [DFile "App.tsx" (Some "export default App");
           DFile "logo.png" (Some "PNG");
           DFile ".env" (Some "SECRET=1");
           DFile "package.json" (Some "{inner}");
           DFile "broken.ts" None;
           DDir "components" (Some [DFile "Button.tsx" (Some "export const Button")]);
           DDir "locked" None])
    (Some "{outer}").

(** * Proofs *)

(** ** Envelopes *)

Lemma MessageType_value_inj t1 t2 :
  MessageType_value t1 = MessageType_value t2 → t1 = t2.
Proof. destruct t1, t2; simpl; intros H; try reflexivity; discriminate H. Qed.

Lemma dict_type_to_dict m : dict_type (to_dict m) = Some (MessageType_value (type m)).
Proof. reflexivity. Qed.

Lemma dict_id_to_dict m : dict_id (to_dict m) = Some (id m).
Proof. reflexivity. Qed.

Lemma dict_data_to_dict m : dict_data (to_dict m) = Some (data m).
Proof. reflexivity. Qed.

Example demo_load :
  tools_load_code demo_remote "sb-1"
  = Some (<["/app/src/components/Button.tsx" := "export const Button"]>
            {[ "/app/src/App.tsx" := "export default App" ]}, "{}").
Proof. vm_compute. reflexivity. Qed.

Lemma draws_app tr1 tr2 : draws (tr1 ++ tr2) = draws tr1 + draws tr2.
Proof. induction tr1 as [|a tr1 IH]; simpl; [done | rewrite IH; lia]. Qed.

(** ** Rules of the trace logic *)

Section TraceLogic.
Context {A B : Type}.

Lemma runs_ret (a : A) s : runs (mret a) s [] [] (Ok a).
Proof.
  exists s, []. rewrite !app_nil_r. repeat split; auto.
Qed.

Lemma runs_raise (e : Exn) s : runs (raise e : M A) s [] [] (Raise e).
Proof.
  exists s, []. rewrite !app_nil_r. repeat split; auto.
Qed.

Lemma runs_bind (m : M A) (k : A → M B) s tr1 t1 a tr2 t2 r :
  runs m s tr1 t1 (Ok a) →
  (∀ s1, init_data s1 = init_data s → history s1 = history s ++ t1 →
         uuid_calls s1 = uuid_calls s + draws tr1 → runs (k a) s1 tr2 t2 r) →
  runs (m ≫= k) s (tr1 ++ tr2) (t1 ++ t2) r.
Proof.
  intros (s1 & ev1 & Hm & Hl1 & Hf1 & Hh1 & Hi1 & Hu1) Hk.
  destruct (Hk s1 Hi1 Hh1 Hu1) as (s2 & ev2 & Hk2 & Hl2 & Hf2 & Hh2 & Hi2 & Hu2).
  exists s2, (ev1 ++ ev2).
  unfold mbind, M_bind, bind. rewrite Hm. split; [exact Hk2|].
  rewrite Hl2, Hl1, Hh2, Hh1, Hi2, Hi1, !app_assoc.
  repeat split; auto; [by apply Forall2_app |].
  rewrite draws_app. lia.
Qed.

Lemma runs_bind_raise (m : M A) (k : A → M B) s tr t e :
  runs m s tr t (Raise e) → runs (m ≫= k) s tr t (Raise e).
Proof.
  intros (s1 & ev1 & Hm & Hrest).
  exists s1, ev1. unfold mbind, M_bind, bind. rewrite Hm. by split.
Qed.
End TraceLogic.

Lemma runs_emit e s : runs (emit e) s [ALit e] [] (Ok tt).
Proof.
  exists (mkState (tools s) (init_data s) (history s) (uuid_calls s)
                  (clock_reads s) (log s ++ [e])), [e].
  simpl. rewrite app_nil_r. repeat split; auto.
  by repeat constructor.
Qed.

Lemma runs_yield_new env ty d oid s :
  runs (yield_new env ty d oid) s [ANew ty d oid] [] (Ok tt).
Proof.
  unfold runs, yield_new, Message_new, mbind, M_bind, bind, mret, M_ret, ret.
  destruct oid as [i|]; [destruct (decide (i = EmptyString)) as [->|Hi]|]; simpl.
  all: eexists _, [_]; simpl; rewrite app_nil_r.
  all: split; [reflexivity|]; split; [reflexivity|].
  all: split; [|simpl; rewrite ?app_nil_r; repeat split; auto;
         rewrite ?bool_decide_eq_false_2 by done; lia].
  all: constructor; [|constructor].
  all: eexists; split; [reflexivity|]; simpl; repeat split; congruence.
Qed.

Lemma runs_add_to_history fb p s :
  runs (add_to_history fb p) s [] [mkTurn "user" fb; mkTurn "assistant" p] (Ok tt).
Proof.
  eexists _, []. unfold add_to_history. simpl. rewrite app_nil_r.
  repeat split; auto. by rewrite <- app_assoc.
Qed.

Lemma runs_seq {A B} (m : M A) (k : A → M B) s tr1 t1 a tr2 t2 r tr t :
  runs m s tr1 t1 (Ok a) →
  (∀ s1, init_data s1 = init_data s → history s1 = history s ++ t1 →
         uuid_calls s1 = uuid_calls s + draws tr1 → runs (k a) s1 tr2 t2 r) →
  tr = tr1 ++ tr2 → t = t1 ++ t2 →
  runs (m ≫= k) s tr t r.
Proof. intros Hm Hk -> ->. by eapply runs_bind. Qed.

(** ** The streaming loop runs as its denotation says *)

Section LoopRuns.
Variable env : Env.
Variables feedback pid fid : string.

Lemma runs_process_file file ncm s :
  runs (process_file env fid file ncm) s (file_trace fid file ncm) []
       (Ok (first_wins file ncm)).
Proof.
  unfold process_file, file_trace, first_wins.
  destruct (decide (ncm !! path file = None)); [|apply runs_ret].
  eapply runs_seq; [apply runs_yield_new | | by rewrite app_nil_r | done].
  intros; apply runs_ret.
Qed.

Lemma runs_files fs : ∀ ncm s,
  runs (for_in (process_file env fid) fs ncm) s (files_trace fid fs ncm) []
       (Ok (files_map fs ncm)).
Proof.
  induction fs as [|f fs IH]; intros ncm s; simpl; [apply runs_ret|].
  eapply runs_seq; [apply runs_process_file | | done | done].
  intros; apply IH.
Qed.

Lemma runs_process_partial p loc s :
  runs (process_partial env feedback pid fid p loc) s
       (plan_trace pid p loc.1 ++ files_trace fid (files p) loc.2)
       (plan_turns feedback p loc.1)
       (Ok (partial_loc p loc)).
Proof.
  unfold process_partial, plan_trace, plan_turns, partial_loc, finalises.
  eapply runs_seq with (t1 := []);
    [ | intros s1 _ _ _ | rewrite <- app_assoc; reflexivity | reflexivity ].
  { destruct (bool_decide (state (plan p) ≠ "Complete") && negb loc.1);
      [apply runs_yield_new | apply (runs_ret tt)]. }
  destruct (bool_decide (state (plan p) = "Complete") && negb loc.1).
  - eapply runs_seq with (t2 := []);
      [ | intros s2 _ _ _ | reflexivity | by rewrite app_nil_r ].
    { eapply runs_seq; [apply runs_yield_new | intros s2 _ _ _ | done | done].
      eapply runs_seq with (tr1 := []);
        [apply runs_add_to_history | intros; apply runs_ret | done
        | by rewrite app_nil_r]. }
    eapply runs_seq;
      [apply runs_files | intros; apply runs_ret | by rewrite app_nil_r | done].
  - eapply runs_seq with (t2 := []); [apply runs_ret | intros s2 _ _ _ | done | done].
    eapply runs_seq;
      [apply runs_files | intros; apply runs_ret | by rewrite app_nil_r | done].
Qed.

Lemma runs_stream ps : ∀ loc s,
  runs (for_in (process_partial env feedback pid fid) ps loc) s
       (stream_trace pid fid ps loc) (stream_turns feedback ps loc.1)
       (Ok (stream_loc ps loc)).
Proof.
  induction ps as [|p ps IH]; intros loc s; simpl; [apply runs_ret|].
  eapply runs_seq; [apply runs_process_partial | | done | done].
  intros; apply (IH (partial_loc p loc)).
Qed.
End LoopRuns.

Lemma runs_ends {A} (m : M A) s tr t r : runs m s tr t r → ends m s tr t r.
Proof. intros (s' & evs & H1 & H2 & H3 & H4 & _). by exists s', evs. Qed.

Lemma ends_seq {A B} (m : M A) (k : A → M B) s tr1 t1 a tr2 t2 r tr t :
  runs m s tr1 t1 (Ok a) →
  (∀ s1, init_data s1 = init_data s → history s1 = history s ++ t1 →
         uuid_calls s1 = uuid_calls s + draws tr1 → ends (k a) s1 tr2 t2 r) →
  tr = tr1 ++ tr2 → t = t1 ++ t2 →
  ends (m ≫= k) s tr t r.
Proof.
  intros (s1 & ev1 & Hm & Hl1 & Hf1 & Hh1 & Hi1 & Hu1) Hk -> ->.
  destruct (Hk s1 Hi1 Hh1 Hu1) as (s2 & ev2 & Hk2 & Hl2 & Hf2 & Hh2).
  exists s2, (ev1 ++ ev2). unfold mbind, M_bind, bind. rewrite Hm.
  split; [exact Hk2|]. rewrite Hl2, Hl1, Hh2, Hh1, !app_assoc.
  repeat split; auto. by apply Forall2_app.
Qed.

Lemma ends_raise_bind {A B} (m : M A) (k : A → M B) s tr t e :
  runs m s tr t (Raise e) → ends (m ≫= k) s tr t (Raise e).
Proof. intros H. apply runs_ends. by apply runs_bind_raise. Qed.

Lemma ends_ret_bind {A B} (a : A) (k : A → M B) s tr t r :
  ends (k a) s tr t r → ends (mret a ≫= k) s tr t r.
Proof. intros H. exact H. Qed.

Lemma ends_get_state {B} (k : AgentState → M B) s tr t r :
  ends (k s) s tr t r → ends (get_state ≫= k) s tr t r.
Proof. intros H. exact H. Qed.

Lemma ends_get_history {B} (k : list Turn → M B) s tr t r :
  ends (k (history s)) s tr t r → ends (get_history ≫= k) s tr t r.
Proof. intros H. exact H. Qed.

Lemma ends_uuid4_str {B} env (k : string → M B) s tr t r :
  (∀ s1, init_data s1 = init_data s → history s1 = history s →
         uuid_calls s1 = S (uuid_calls s) →
         ends (k (uuid4 env (uuid_calls s))) s1 tr t r) →
  ends (uuid4_str env ≫= k) s tr t r.
Proof.
  intros H.
  destruct (H (mkState (tools s) (init_data s) (history s) (S (uuid_calls s))
                       (clock_reads s) (log s)) eq_refl eq_refl eq_refl)
    as (s' & evs & H1 & H2 & H3 & H4).
  exists s', evs. unfold mbind, M_bind, bind, uuid4_str. by rewrite H1.
Qed.

Lemma runs_session_call_tool env name arguments s :
  runs (session_call_tool env name arguments) s [ALit (CallTool name arguments)] []
       (match call_tool env name arguments with
        | Some r => Ok r
        | None => Raise (ToolError name)
        end).
Proof.
  unfold session_call_tool.
  destruct (call_tool env name arguments) as [r|].
  - eapply runs_seq; [apply runs_emit | intros; apply runs_ret | done | done].
  - eapply runs_seq; [apply runs_emit | intros; apply runs_raise | done | done].
Qed.

Lemma runs_call_ok env name arguments s r :
  call_tool env name arguments = Some r →
  runs (session_call_tool env name arguments) s [ALit (CallTool name arguments)] []
       (Ok r).
Proof. intros H. generalize (runs_session_call_tool env name arguments s). by rewrite H. Qed.

Lemma runs_call_raise env name arguments s :
  call_tool env name arguments = None →
  runs (session_call_tool env name arguments) s [ALit (CallTool name arguments)] []
       (Raise (ToolError name)).
Proof. intros H. generalize (runs_session_call_tool env name arguments s). by rewrite H. Qed.

Lemma send_feedback_loaded env feedback s sid cm pj :
  loads env s sid cm pj →
  let st := cycle_stream env feedback s cm pj in
  ends (send_feedback env feedback) s
       (cycle_trace env feedback s sid st)
       (stream_turns feedback (items st) false)
       (cycle_tail env sid st (stream_loc (items st) (false, ∅)).2).2.
Proof.
  intros (m & Hinit & Hsid & Hcall) st. unfold send_feedback, cycle_trace.
  eapply ends_seq with (t1 := []);
    [apply runs_yield_new | intros s1 Hi1 Hh1 Hu1 | reflexivity | reflexivity].
  apply ends_get_state. rewrite Hi1, Hinit. unfold getitem. rewrite Hsid.
  apply ends_ret_bind.
  eapply ends_seq with (t1 := []);
    [apply runs_call_ok, Hcall | intros s2 Hi2 Hh2 Hu2 | reflexivity | reflexivity].
  apply ends_ret_bind. apply ends_ret_bind. apply ends_get_history.
  rewrite Hh2, Hh1, !app_nil_r. fold (cycle_stream env feedback s cm pj). fold st.
  apply ends_uuid4_str. intros s3 Hi3 Hh3 Hu3.
  apply ends_uuid4_str. intros s4 Hi4 Hh4 Hu4.
  assert (uuid4 env (uuid_calls s2) = plan_msg_id env s) as ->.
  { unfold plan_msg_id. f_equal. rewrite Hu2, Hu1. simpl. lia. }
  assert (uuid4 env (uuid_calls s3) = file_msg_id env s) as ->.
  { unfold file_msg_id. f_equal. rewrite Hu3, Hu2, Hu1. simpl. lia. }
  eapply ends_seq;
    [apply runs_stream | intros s5 Hi5 Hh5 _ | reflexivity | by rewrite app_nil_r].
  unfold cycle_tail. destruct (raises st).
  { apply ends_raise_bind, runs_raise. }
  apply ends_ret_bind, ends_get_state.
  rewrite Hi5, Hi4, Hi3, Hi2, Hi1, Hinit, Hsid. apply ends_ret_bind.
  unfold edit_code. fold (edit_arguments sid (stream_loc (items st) (false, ∅)).2).
  destruct (call_tool env T_EDIT_CODE _) as [r|] eqn:Hedit.
  - eapply ends_seq;
      [apply runs_call_ok, Hedit | intros s6 _ _ _ | reflexivity | reflexivity].
    apply runs_ends, runs_yield_new.
  - apply ends_raise_bind, runs_call_raise, Hedit.
Qed.

Lemma json_iter_dict_first v cm b :
  json_iter v = Some [JObj cm; b] → v = JArr [JObj cm; b].
Proof.
  destruct v as [| |str|l|m]; simpl; try discriminate.
  - destruct (String.list_ascii_of_string str); simpl; intros H; inversion H.
  - by intros [= ->].
  - destruct ((map_to_list m).*1); simpl; intros H; inversion H.
Qed.

Lemma runs_unpack2 v s :
  runs (unpack2 v) s [] []
       (match json_iter v with
        | Some [a; b] => Ok (a, b)
        | Some _ => Raise ValueError
        | None => Raise TypeError
        end).
Proof.
  unfold unpack2.
  destruct (json_iter v) as [[|a [|b [|c l]]]|];
    first [apply runs_ret | apply runs_raise].
Qed.

Lemma runs_dict_items v s :
  runs (dict_items v) s [] []
       (match v with
        | JObj m => Ok (map_to_list m)
        | _ => Raise AttributeError
        end).
Proof. destruct v; first [apply runs_ret | apply runs_raise]. Qed.

(** A cycle on an agent whose [init_data] has no ["sandbox_id"]. *)
Lemma send_feedback_no_sandbox_id env feedback s m :
  init_data s = JObj m → m !! "sandbox_id" = None →
  ends (send_feedback env feedback) s [ANew UPDATE_IN_PROGRESS (JObj ∅) None] []
       (Raise (KeyError "sandbox_id")).
Proof.
  intros Hinit Hsid. unfold send_feedback.
  eapply ends_seq with (t1 := []);
    [apply runs_yield_new | intros s1 Hi1 _ _ | reflexivity | reflexivity].
  apply ends_get_state. rewrite Hi1, Hinit. unfold getitem. rewrite Hsid.
  apply ends_raise_bind, runs_raise.
Qed.

(** Steps a cycle up to the [load_code] call. *)
Local Ltac to_load_call Hinit Hsid :=
  let Hi := fresh "Hi" in
  unfold send_feedback;
  (eapply ends_seq with (t1 := []);
    [apply runs_yield_new | intros ? Hi _ _ | reflexivity | reflexivity]);
  apply ends_get_state; rewrite Hi, Hinit; unfold getitem; rewrite Hsid;
  apply ends_ret_bind.

(** Steps over a successful tool call. *)
Local Ltac over_call Hcall :=
  eapply ends_seq with (t1 := []);
    [apply runs_call_ok, Hcall | intros ? _ _ _ | reflexivity | reflexivity].

(** Every cycle either passes the load stage or stops in it, having
    yielded [update_in_progress] and at most called [load_code]. *)
Lemma send_feedback_cases env feedback s :
  (∃ sid cm pj, loads env s sid cm pj)
  ∨ (∃ tr e, load_failure env s tr e ∧
             ends (send_feedback env feedback) s
                  (ANew UPDATE_IN_PROGRESS (JObj ∅) None :: tr) [] (Raise e)).
Proof.
  destruct (init_data s) as [| | | |m] eqn:Hinit.
  1-4: right; exists [], TypeError; split;
       [apply lf_not_dict; intros m; rewrite Hinit; discriminate|];
       unfold send_feedback;
       (eapply ends_seq with (t1 := []);
         [apply runs_yield_new | intros s1 Hi1 _ _ | reflexivity | reflexivity]);
       apply ends_get_state; rewrite Hi1, Hinit;
       apply ends_raise_bind, runs_raise.
  destruct (m !! "sandbox_id") as [sid|] eqn:Hsid.
  2: { right. exists [], (KeyError "sandbox_id"). split; [by eapply lf_no_key|].
       by eapply send_feedback_no_sandbox_id. }
  assert (∀ e, e ∈ [ToolError T_LOAD_CODE; ValueError; TypeError; AttributeError] →
    ends (send_feedback env feedback) s
         [ANew UPDATE_IN_PROGRESS (JObj ∅) None;
          ALit (CallTool T_LOAD_CODE {[ "sandbox_id" := sid ]})] [] (Raise e) →
    ∃ tr e', load_failure env s tr e' ∧
             ends (send_feedback env feedback) s
                  (ANew UPDATE_IN_PROGRESS (JObj ∅) None :: tr) [] (Raise e')) as Hfail.
  { intros e He Hends. eexists _, e. split; [by eapply lf_call | exact Hends]. }
  destruct (call_tool env T_LOAD_CODE {[ "sandbox_id" := sid ]}) as [loaded|] eqn:Hcall.
  2: { right. apply (Hfail (ToolError T_LOAD_CODE)); [set_solver|].
       to_load_call Hinit Hsid. apply ends_raise_bind, runs_call_raise, Hcall. }
  pose proof (λ s2, runs_unpack2 loaded s2) as Hun.
  destruct (json_iter loaded) as [[|a [|b [|c l]]]|] eqn:Hiter.
  3: { destruct a as [| | | |cm].
       5: { left. exists sid, cm, b, m. repeat split; [done..|].
            by rewrite Hcall, (json_iter_dict_first _ _ _ Hiter). }
       all: right; apply (Hfail AttributeError); [set_solver|].
       all: to_load_call Hinit Hsid; over_call Hcall.
       all: eapply ends_seq with (t1 := []) (tr1 := []);
              [apply Hun | intros s4 _ _ _ | reflexivity | reflexivity].
       all: cbn beta iota; apply ends_raise_bind; exact (runs_dict_items _ s4). }
  1-3: right; apply (Hfail ValueError); [set_solver|].
  4: right; apply (Hfail TypeError); [set_solver|].
  all: to_load_call Hinit Hsid; over_call Hcall; apply ends_raise_bind, Hun.
Qed.

(** ** From traces to observations *)

Lemma ends_cycle env feedback s tr t r :
  ends (send_feedback env feedback) s tr t r →
  Forall2 matches tr (cycle_events env feedback s)
  ∧ cycle_history env feedback s = history s ++ t
  ∧ cycle_result env feedback s = r.
Proof.
  intros (s' & evs & Hrun & Hlog & Hm & Hh).
  unfold cycle_events, cycle_history, cycle_result. rewrite Hrun. simpl.
  by rewrite Hlog, drop_app_length.
Qed.

Lemma a_types_app tr1 tr2 : a_types (tr1 ++ tr2) = a_types tr1 ++ a_types tr2.
Proof. apply omap_app. Qed.

Lemma a_edits_app tr1 tr2 : a_edits (tr1 ++ tr2) = a_edits tr1 ++ a_edits tr2.
Proof. apply omap_app. Qed.

Lemma a_count_app t tr1 tr2 : a_count t (tr1 ++ tr2) = a_count t tr1 + a_count t tr2.
Proof. unfold a_count. by rewrite a_types_app, filter_app, length_app. Qed.

Lemma matches_types tr evs :
  Forall2 matches tr evs → made_by_new tr →
  dict_type <$> emitted evs = (λ ty, Some (MessageType_value ty)) <$> a_types tr.
Proof.
  induction 1 as [|a e tr evs Hae _ IH]; intros Hnew; [done|].
  assert (made_by_new tr) as Hnew' by (intros a' Ha'; apply Hnew; by right).
  specialize (Hnew a (list_elem_of_here _ _)).
  destruct a as [ty d oid|e']; simpl in *.
  - destruct Hae as (m & -> & <- & _). simpl. f_equal. by apply IH.
  - subst e'. destruct e; simpl; [done | by apply IH..].
Qed.

Lemma matches_count t tr evs :
  Forall2 matches tr evs → made_by_new tr →
  count_type t (emitted evs) = a_count t tr.
Proof.
  intros H Hnew. unfold count_type, a_count. rewrite (matches_types _ _ H Hnew).
  induction (a_types tr) as [|ty tys IH]; [done|].
  rewrite fmap_cons, !filter_cons. destruct (decide (ty = t)) as [->|Hne].
  - rewrite decide_True by done. simpl. by rewrite IH.
  - rewrite decide_False; [done|]. intros [= Heq]. by apply MessageType_value_inj in Heq.
Qed.

Lemma matches_edits tr evs :
  Forall2 matches tr evs → edit_calls evs = a_edits tr.
Proof.
  induction 1 as [|a e tr evs Hae _ IH]; [done|].
  destruct a as [ty d oid|e']; simpl in *.
  - destruct Hae as (m & -> & _). simpl. exact IH.
  - subst e'. unfold edit_calls, a_edits in *. simpl.
    destruct e as [d| |[] args]; simpl; by rewrite ?IH.
Qed.

Lemma matches_emitted tr evs d :
  Forall2 matches tr evs → made_by_new tr → d ∈ emitted evs →
  ∃ ty dd oid m, ANew ty dd oid ∈ tr ∧ d = to_dict m ∧ type m = ty ∧ data m = dd
                 ∧ (∀ i, oid = Some i → i ≠ EmptyString → id m = i).
Proof.
  induction 1 as [|a e tr evs Hae _ IH]; intros Hnew Hd; [by apply elem_of_nil in Hd|].
  assert (made_by_new tr) as Hnew' by (intros a' Ha'; apply Hnew; by right).
  specialize (Hnew a (list_elem_of_here _ _)).
  assert (d ∈ emitted evs → ∃ ty dd oid m, ANew ty dd oid ∈ a :: tr ∧ d = to_dict m
            ∧ type m = ty ∧ data m = dd ∧ (∀ i, oid = Some i → i ≠ EmptyString → id m = i)) as Hrest.
  { intros Hd'. destruct (IH Hnew' Hd') as (ty & dd & oid & m & Hin & Hm).
    exists ty, dd, oid, m. split; [by right | exact Hm]. }
  destruct a as [ty dd oid|e']; simpl in *.
  - destruct Hae as (m & -> & Hty & Hdd & Hid). simpl in Hd.
    apply elem_of_cons in Hd as [->|Hd]; [|by apply Hrest].
    exists ty, dd, oid, m. split; [by left | done].
  - subst e'. destruct e; simpl in *; [done | by apply Hrest..].
Qed.

(** ** Properties of the loop's denotation *)

Section LoopFacts.
Variables pid fid : string.

Lemma files_trace_elem fs : ∀ ncm a,
  a ∈ files_trace fid fs ncm → ∃ d, a = ANew UPDATE_FILE d (Some fid).
Proof.
  induction fs as [|f fs IH]; intros ncm a; simpl; [by intros ?%elem_of_nil|].
  intros [Ha|Ha]%elem_of_app; [|by eapply IH].
  unfold file_trace in Ha. destruct (decide (ncm !! path f = None)).
  - apply list_elem_of_singleton in Ha as ->. by eexists.
  - by apply elem_of_nil in Ha.
Qed.

Lemma plan_trace_elem p sent a :
  a ∈ plan_trace pid p sent →
  ∃ d, a = ANew AGENT_PARTIAL d (Some pid) ∨ a = ANew AGENT_FINAL d (Some pid).
Proof.
  unfold plan_trace. intros [Ha|Ha]%elem_of_app.
  - destruct (_ && _); [|by apply elem_of_nil in Ha].
    apply list_elem_of_singleton in Ha as ->. eexists. by left.
  - destruct (finalises p sent); [|by apply elem_of_nil in Ha].
    apply list_elem_of_singleton in Ha as ->. eexists. by right.
Qed.

Lemma stream_trace_elem ps : ∀ loc a,
  a ∈ stream_trace pid fid ps loc →
  ∃ d, a = ANew AGENT_PARTIAL d (Some pid) ∨ a = ANew AGENT_FINAL d (Some pid)
       ∨ a = ANew UPDATE_FILE d (Some fid).
Proof.
  induction ps as [|p ps IH]; intros loc a; simpl; [by intros ?%elem_of_nil|].
  intros [[Ha|Ha]%elem_of_app|Ha]%elem_of_app; [| |by eapply IH].
  - destruct (plan_trace_elem _ _ _ Ha) as (d & [->| ->]); exists d; auto.
  - destruct (files_trace_elem _ _ _ Ha) as (d & ->). exists d; auto.
Qed.

(** Only new paths are notified, and each makes the map one larger. *)
Lemma files_trace_count fs : ∀ ncm,
  a_count UPDATE_FILE (files_trace fid fs ncm) + size ncm = size (files_map fs ncm).
Proof.
  induction fs as [|f fs IH]; intros ncm; simpl; [done|].
  rewrite a_count_app, <- IH. unfold file_trace, first_wins.
  destruct (decide (ncm !! path f = None)) as [Hnew|Hold]; [|done].
  rewrite map_size_insert_None by done. unfold a_count. simpl. lia.
Qed.

Lemma files_trace_no_final fs : ∀ ncm,
  a_count AGENT_FINAL (files_trace fid fs ncm) = 0.
Proof.
  induction fs as [|f fs IH]; intros ncm; simpl; [done|].
  rewrite a_count_app, IH. unfold file_trace.
  by destruct (decide (ncm !! path f = None)).
Qed.

Lemma plan_trace_count_final p sent :
  a_count AGENT_FINAL (plan_trace pid p sent) = if finalises p sent then 1 else 0.
Proof.
  unfold plan_trace. rewrite a_count_app.
  by destruct (_ && _), (finalises p sent).
Qed.

Lemma plan_trace_no_file p sent : a_count UPDATE_FILE (plan_trace pid p sent) = 0.
Proof.
  unfold plan_trace. rewrite a_count_app.
  by destruct (_ && _), (finalises p sent).
Qed.

Lemma stream_trace_count_final ps : ∀ loc,
  a_count AGENT_FINAL (stream_trace pid fid ps loc)
  = if loc.1 then 0 else if existsb is_complete ps then 1 else 0.
Proof.
  induction ps as [|p ps IH]; intros [sent ncm]; simpl; [by destruct sent|].
  rewrite !a_count_app, plan_trace_count_final, files_trace_no_final, IH. simpl.
  unfold finalises, is_complete.
  destruct sent, (bool_decide (state (plan p) = "Complete")); simpl; try done.
Qed.

Lemma stream_loc_files ps : ∀ loc,
  (stream_loc ps loc).2 = files_map (all_files ps) loc.2.
Proof.
  assert (∀ fs1 fs2 ncm, files_map (fs1 ++ fs2) ncm = files_map fs2 (files_map fs1 ncm))
    as Happ.
  { induction fs1 as [|f fs1 IH]; intros fs2 ncm; simpl; [done | apply IH]. }
  induction ps as [|p ps IH]; intros loc; simpl; [done|].
  by rewrite IH, Happ.
Qed.

Lemma stream_trace_count_file ps : ∀ loc,
  a_count UPDATE_FILE (stream_trace pid fid ps loc) + size loc.2
  = size (stream_loc ps loc).2.
Proof.
  induction ps as [|p ps IH]; intros loc; simpl; [done|].
  rewrite !a_count_app, plan_trace_no_file, <- IH. simpl.
  rewrite <- files_trace_count. lia.
Qed.
End LoopFacts.

Lemma first_wins_lookup f ncm k :
  first_wins f ncm !! k
  = match ncm !! k with
    | Some c => Some c
    | None => if decide (path f = k) then Some (content f) else None
    end.
Proof.
  unfold first_wins. destruct (decide (ncm !! path f = None)) as [Hnew|Hold].
  - rewrite lookup_insert. destruct (decide (path f = k)) as [<-|]; [by rewrite Hnew|].
    by destruct (ncm !! k).
  - destruct (ncm !! k) eqn:Hk; [done|]. destruct (decide (path f = k)) as [<-|]; done.
Qed.

(** An entry of the map is never overwritten. *)
Lemma files_map_keeps fs : ∀ ncm k c,
  ncm !! k = Some c → files_map fs ncm !! k = Some c.
Proof.
  induction fs as [|f fs IH]; intros ncm k c Hk; simpl; [done|].
  apply IH. by rewrite first_wins_lookup, Hk.
Qed.

(** A path the loop has not met is not in the map. *)
Lemma files_map_absent fs : ∀ ncm k,
  ncm !! k = None → k ∉ path <$> fs → files_map fs ncm !! k = None.
Proof.
  induction fs as [|f fs IH]; intros ncm k Hk Hnot; simpl; [done|].
  rewrite fmap_cons, not_elem_of_cons in Hnot. destruct Hnot as [Hne Hnot].
  apply IH; [|done]. rewrite first_wins_lookup, Hk. by rewrite decide_False.
Qed.

(** The first entry for a path supplies the content. *)
Lemma files_map_first pre f post ncm :
  ncm !! path f = None → path f ∉ path <$> pre →
  files_map (pre ++ f :: post) ncm !! path f = Some (content f).
Proof.
  revert ncm. induction pre as [|g pre IH]; intros ncm Hk Hnot; simpl.
  - apply files_map_keeps. by rewrite first_wins_lookup, Hk, decide_True.
  - rewrite fmap_cons, not_elem_of_cons in Hnot. destruct Hnot as [Hne Hnot].
    apply IH; [|done]. rewrite first_wins_lookup, Hk. by rewrite decide_False.
Qed.

Lemma files_map_dom fs : ∀ ncm,
  dom (files_map fs ncm) = dom ncm ∪ list_to_set (path <$> fs).
Proof.
  induction fs as [|f fs IH]; intros ncm; simpl; [set_solver|].
  rewrite IH. unfold first_wins.
  destruct (decide (ncm !! path f = None)) as [Hnew|Hold].
  - rewrite dom_insert_L. set_solver.
  - assert (path f ∈ dom ncm).
    { apply elem_of_dom. by destruct (ncm !! path f) eqn:E; [eexists|]. }
    set_solver.
Qed.

Lemma stream_turns_first feedback ps : ∀ sent,
  stream_turns feedback ps sent
  = if sent then [] else first_complete_turns feedback ps.
Proof.
  unfold first_complete_turns.
  induction ps as [|p ps IH]; intros sent; simpl; [by destruct sent|].
  rewrite IH. unfold plan_turns, finalises, is_complete.
  destruct sent, (bool_decide (state (plan p) = "Complete")); simpl; try done.
Qed.

Lemma demo_loads : loads demo_env demo_state (JStr "sb-1") demo_code_map (JStr "{}").
Proof. eexists. split; [reflexivity|]. split; vm_compute; reflexivity. Qed.

Lemma demo_loads_raising :
  loads demo_env_raising demo_state (JStr "sb-1") demo_code_map (JStr "{}").
Proof. eexists. split; [reflexivity|]. split; vm_compute; reflexivity. Qed.

(** ** Shape of a whole cycle's trace *)

Lemma cycle_tail_cases env sid st ncm :
  (raises st = true ∧ cycle_tail env sid st ncm = ([], Raise GenerationError))
  ∨ (raises st = false ∧
     ((cycle_tail env sid st ncm
       = ([ALit (CallTool T_EDIT_CODE (edit_arguments sid ncm));
           ANew UPDATE_COMPLETED (JObj ∅) None], Ok tt))
      ∨ (cycle_tail env sid st ncm
         = ([ALit (CallTool T_EDIT_CODE (edit_arguments sid ncm))],
            Raise (ToolError T_EDIT_CODE))))).
Proof.
  unfold cycle_tail. destruct (raises st); [by left|]. right. split; [done|].
  destruct (call_tool env T_EDIT_CODE _); [by left | by right].
Qed.

Lemma stream_trace_new pid fid ps loc : made_by_new (stream_trace pid fid ps loc).
Proof.
  intros a Ha. by destruct (stream_trace_elem _ _ _ _ _ Ha) as (d & [->|[->| ->]]).
Qed.

Lemma cycle_trace_new env feedback s sid st :
  made_by_new (cycle_trace env feedback s sid st).
Proof.
  intros a. unfold cycle_trace.
  rewrite !elem_of_app, !elem_of_cons, elem_of_nil.
  intros [[->|[->|[]]]|[Ha|Ha]]; [done | done | by apply stream_trace_new in Ha |].
  destruct (cycle_tail_cases env sid st (stream_loc (items st) (false, ∅)).2)
    as [[_ Heq]|[_ [Heq|Heq]]]; rewrite Heq in Ha; simpl in Ha;
    set_solver.
Qed.

Lemma load_failure_new env s tr e :
  load_failure env s tr e → made_by_new (ANew UPDATE_IN_PROGRESS (JObj ∅) None :: tr).
Proof. intros [Hn|m Hi Hk|m sid e' Hi Hk He] a Ha; set_solver. Qed.

Lemma load_failure_types env s tr e :
  load_failure env s tr e → a_types tr = [] ∧ a_edits tr = [].
Proof. by intros [Hn|m Hi Hk|m sid e' Hi Hk He]. Qed.

(** ** Three cycles, run

    An empty feedback answered by one completed plan without files; the
    stream that sends [src/App.tsx] twice; a load that raises. *)

Example cycle_done :
  dict_type <$> cycle_emitted done_env EmptyString demo_state
  = [Some "update_in_progress"; Some "agent_final"; Some "update_completed"]
  ∧ cycle_history done_env EmptyString demo_state
    = [mkTurn "user" EmptyString; mkTurn "assistant" "Done"]
  ∧ cycle_writes done_env EmptyString demo_state = [edit_arguments (JStr "sb-1") ∅]
  ∧ cycle_result done_env EmptyString demo_state = Ok tt.
Proof. repeat split; vm_compute; reflexivity. Qed.

Example cycle_twice :
  dict_type <$> cycle_emitted demo_env "make it blue" demo_state
  = [Some "update_in_progress"; Some "agent_partial"; Some "agent_final";
     Some "update_file"; Some "update_completed"].
Proof. vm_compute. reflexivity. Qed.

Example cycle_lost :
  dict_type <$> cycle_emitted lost_env "make it blue" demo_state
  = [Some "update_in_progress"]
  ∧ cycle_writes lost_env "make it blue" demo_state = []
  ∧ cycle_result lost_env "make it blue" demo_state = Raise (ToolError T_LOAD_CODE).
Proof. repeat split; vm_compute; reflexivity. Qed.

(** ** Properties of a cycle *)

(** C10. Consumed on an agent whose [init_data] mapping has no
    ["sandbox_id"] key, [send_feedback] yields the [update_in_progress]
    envelope and then ends with the key-lookup error, with no other event;
    when the key is present the cycle never ends with a key-lookup error. *)
Theorem C10_missing_sandbox_id env feedback s m :
  init_data s = JObj m →
  (m !! "sandbox_id" = None →
     cycle_result env feedback s = Raise (KeyError "sandbox_id")
     ∧ length (cycle_events env feedback s) = 1
     ∧ dict_type <$> cycle_emitted env feedback s = [Some "update_in_progress"])
  ∧ (is_Some (m !! "sandbox_id") →
     ∀ k, cycle_result env feedback s ≠ Raise (KeyError k)).
Proof.
  intros Hinit. split.
  - intros Hnone.
    destruct (ends_cycle _ _ _ _ _ _
                (send_feedback_no_sandbox_id env feedback s m Hinit Hnone))
      as (Hm & _ & Hr).
    split; [exact Hr|]. split.
    + by rewrite <- (Forall2_length _ _ _ Hm).
    + unfold cycle_emitted. rewrite (matches_types _ _ Hm); [done|].
      intros a Ha. apply list_elem_of_singleton in Ha. by subst a.
  - intros [sid Hsid] k.
    destruct (send_feedback_cases env feedback s)
      as [(sid' & cm & pj & Hl)|(tr & e & Hf & Hends)].
    + destruct (ends_cycle _ _ _ _ _ _ (send_feedback_loaded env feedback s _ _ _ Hl))
        as (_ & _ & ->).
      destruct (cycle_tail_cases env sid' (cycle_stream env feedback s cm pj)
                  (stream_loc (items (cycle_stream env feedback s cm pj)) (false, ∅)).2)
        as [[_ ->]|[_ [->| ->]]]; discriminate.
    + destruct (ends_cycle _ _ _ _ _ _ Hends) as (_ & _ & ->).
      destruct Hf as [Hn|m' Hi' Hk'|m' sid' e' Hi' Hk' He].
      * by destruct (Hn m).
      * rewrite Hinit in Hi'. injection Hi' as <-. by rewrite Hsid in Hk'.
      * intros [= ->]. set_solver.
Qed.

(** A cycle on an agent that was never initialised stops at the lookup; one
    on an initialised agent does not. *)
Lemma C10_missing_sandbox_id_witness :
  (cycle_result demo_env "make it blue" fresh_state = Raise (KeyError "sandbox_id")
   ∧ length (cycle_events demo_env "make it blue" fresh_state) = 1
   ∧ dict_type <$> cycle_emitted demo_env "make it blue" fresh_state
     = [Some "update_in_progress"])
  ∧ ∀ k, cycle_result demo_env "make it blue" demo_state ≠ Raise (KeyError k).
Proof.
  split.
  - apply (C10_missing_sandbox_id demo_env "make it blue" fresh_state ∅);
      reflexivity.
  - eapply (C10_missing_sandbox_id demo_env "make it blue" demo_state);
      [reflexivity|]. by eexists.
Defined.

Lemma stream_trace_types pid fid ps loc ty :
  ty ∈ a_types (stream_trace pid fid ps loc) →
  ty = AGENT_PARTIAL ∨ ty = AGENT_FINAL ∨ ty = UPDATE_FILE.
Proof.
  unfold a_types. rewrite list_elem_of_omap. intros (a & Ha & Hty).
  destruct (stream_trace_elem _ _ _ _ _ Ha) as (d & [->|[->| ->]]);
    injection Hty as <-; auto.
Qed.

(** In a list that starts with [update_in_progress], goes on with envelopes
    of the streaming loop and ends with at most one [update_completed], that
    one is last. *)
Lemma completed_is_last (mid tl : list MessageType) i :
  (∀ ty, ty ∈ mid → ty ≠ UPDATE_COMPLETED) →
  tl = [] ∨ tl = [UPDATE_COMPLETED] →
  (UPDATE_IN_PROGRESS :: mid ++ tl) !! i = Some UPDATE_COMPLETED →
  S i = length (UPDATE_IN_PROGRESS :: mid ++ tl).
Proof.
  intros Hmid Htl. destruct i as [|i]; simpl; [discriminate|].
  intros Hi. rewrite length_app. f_equal.
  destruct (decide (i < length mid)) as [Hlt|Hge].
  - rewrite lookup_app_l in Hi by done.
    apply list_elem_of_lookup_2 in Hi. by destruct (Hmid _ Hi).
  - rewrite lookup_app_r in Hi by lia.
    destruct Htl as [-> | ->]; [done|].
    destruct (i - length mid) as [|n] eqn:E; simpl in *; [lia | done].
Qed.

(** C7. In every cycle [update_in_progress] is the first envelope emitted,
    and an [update_completed] envelope, when one is emitted, is the last. *)
Theorem C7_first_and_last env feedback s :
  head (dict_type <$> cycle_emitted env feedback s) = Some (Some "update_in_progress")
  ∧ ∀ i, (dict_type <$> cycle_emitted env feedback s) !! i
         = Some (Some "update_completed") →
         S i = length (cycle_emitted env feedback s).
Proof.
  assert (∀ mid tl tr,
    Forall2 matches tr (cycle_events env feedback s) → made_by_new tr →
    a_types tr = UPDATE_IN_PROGRESS :: mid ++ tl →
    (∀ ty, ty ∈ mid → ty ≠ UPDATE_COMPLETED) →
    tl = [] ∨ tl = [UPDATE_COMPLETED] →
    head (dict_type <$> cycle_emitted env feedback s) = Some (Some "update_in_progress")
    ∧ ∀ i, (dict_type <$> cycle_emitted env feedback s) !! i
           = Some (Some "update_completed") →
           S i = length (cycle_emitted env feedback s)) as Hshape.
  { intros mid tl tr Hm Hnew Hty Hmid Htl.
    pose proof (matches_types _ _ Hm Hnew) as Heq. fold (cycle_emitted env feedback s) in Heq.
    rewrite Hty in Heq. split; [by rewrite Heq|].
    intros i Hi. rewrite Heq, list_lookup_fmap in Hi.
    destruct ((UPDATE_IN_PROGRESS :: mid ++ tl) !! i) as [ty|] eqn:Hl; [|done].
    injection Hi as Hv. apply (MessageType_value_inj ty UPDATE_COMPLETED) in Hv. subst ty.
    rewrite (completed_is_last mid tl i Hmid Htl Hl).
    by rewrite <- (length_fmap dict_type), Heq, length_fmap. }
  destruct (send_feedback_cases env feedback s)
    as [(sid & cm & pj & Hl)|(tr & e & Hf & Hends)].
  - destruct (ends_cycle _ _ _ _ _ _ (send_feedback_loaded env feedback s _ _ _ Hl))
      as (Hm & _ & _).
    set (st := cycle_stream env feedback s cm pj) in *.
    eapply (Hshape _ (a_types (cycle_tail env sid st (stream_loc (items st) (false, ∅)).2).1));
      [exact Hm | apply cycle_trace_new | | |].
    + unfold cycle_trace. by rewrite !a_types_app.
    + intros ty Hty. by destruct (stream_trace_types _ _ _ _ _ Hty) as [->|[->| ->]].
    + destruct (cycle_tail_cases env sid st (stream_loc (items st) (false, ∅)).2)
        as [[_ ->]|[_ [->| ->]]]; auto.
  - destruct (ends_cycle _ _ _ _ _ _ Hends) as (Hm & _ & _).
    eapply (Hshape [] []); [exact Hm | by eapply load_failure_new | | set_solver | by left].
    simpl. by rewrite (proj1 (load_failure_types _ _ _ _ Hf)).
Qed.

(** C3. The [edit_code] write happens exactly once in a cycle whose stream
    is exhausted without error, whatever the files and the plan were, and
    not at all in a cycle whose load stage or stream fails. *)
Theorem C3_single_commit env feedback s :
  (∀ sid cm pj, loads env s sid cm pj →
     let st := cycle_stream env feedback s cm pj in
     (raises st = false → length (cycle_writes env feedback s) = 1)
     ∧ (raises st = true →
        cycle_writes env feedback s = []
        ∧ cycle_result env feedback s = Raise GenerationError))
  ∧ ((¬ ∃ sid cm pj, loads env s sid cm pj) →
     cycle_writes env feedback s = [] ∧ ∃ e, cycle_result env feedback s = Raise e).
Proof.
  split.
  - intros sid cm pj Hl st.
    destruct (ends_cycle _ _ _ _ _ _ (send_feedback_loaded env feedback s _ _ _ Hl))
      as (Hm & _ & Hr).
    fold st in Hm, Hr. unfold cycle_writes. rewrite (matches_edits _ _ Hm), Hr.
    unfold cycle_trace. rewrite !a_edits_app.
    assert (a_edits (stream_trace (plan_msg_id env s) (file_msg_id env s)
                       (items st) (false, ∅)) = []) as ->.
    { apply elem_of_nil_inv. intros a. unfold a_edits. rewrite list_elem_of_omap.
      intros (x & Hx & Hy).
      by destruct (stream_trace_elem _ _ _ _ _ Hx) as (d & [->|[->| ->]]). }
    destruct (cycle_tail_cases env sid st (stream_loc (items st) (false, ∅)).2)
      as [[Hra ->]|[Hra [->| ->]]]; rewrite Hra; split; intros; done.
  - intros Hnot.
    destruct (send_feedback_cases env feedback s) as [Hl|(tr & e & Hf & Hends)].
    + by destruct Hnot.
    + destruct (ends_cycle _ _ _ _ _ _ Hends) as (Hm & _ & Hr).
      unfold cycle_writes. rewrite (matches_edits _ _ Hm). simpl.
      split; [apply (load_failure_types _ _ _ _ Hf) | by exists e].
Qed.

(** The stream of the demo backend ends normally: one write. With the
    raising backend, and on an agent that cannot load: none. *)
Lemma C3_single_commit_witness :
  length (cycle_writes demo_env "make it blue" demo_state) = 1
  ∧ (cycle_writes demo_env_raising "make it blue" demo_state = []
     ∧ cycle_result demo_env_raising "make it blue" demo_state = Raise GenerationError)
  ∧ (cycle_writes demo_env "make it blue" fresh_state = []
     ∧ ∃ e, cycle_result demo_env "make it blue" fresh_state = Raise e).
Proof.
  split; [|split].
  - by apply (proj1 (C3_single_commit demo_env "make it blue" demo_state)
                _ _ _ demo_loads).
  - by apply (proj1 (C3_single_commit demo_env_raising "make it blue" demo_state)
                _ _ _ demo_loads_raising).
  - apply (proj2 (C3_single_commit demo_env "make it blue" fresh_state)).
    intros (sid & cm & pj & m & Hi & Hk & _).
    injection Hi as <-. discriminate Hk.
Defined.

Lemma existsb_is_complete ps :
  existsb is_complete ps = true ↔ ∃ p, p ∈ ps ∧ state (plan p) = "Complete".
Proof.
  rewrite existsb_exists. split; intros (p & Hin & Hp); exists p.
  - split; [by apply list_elem_of_In|]. by apply bool_decide_eq_true in Hp.
  - split; [by apply list_elem_of_In|]. by apply bool_decide_eq_true.
Qed.

Lemma cycle_trace_count env feedback s sid st t :
  t = AGENT_FINAL ∨ t = UPDATE_FILE →
  a_count t (cycle_trace env feedback s sid st)
  = a_count t (stream_trace (plan_msg_id env s) (file_msg_id env s) (items st) (false, ∅)).
Proof.
  intros Ht. unfold cycle_trace. rewrite !a_count_app.
  destruct (cycle_tail_cases env sid st (stream_loc (items st) (false, ∅)).2)
    as [[_ ->]|[_ [->| ->]]]; destruct Ht as [-> | ->]; unfold a_count; simpl; lia.
Qed.

(** C2. Whatever sequence of partial results a cycle consumes, it emits at
    most one [agent_final] envelope, and it emits one exactly when some item
    of the sequence has [plan.state == "Complete"]. *)
Theorem C2_agent_final env feedback s :
  count_type AGENT_FINAL (cycle_emitted env feedback s) ≤ 1
  ∧ ∀ sid cm pj, loads env s sid cm pj →
      (count_type AGENT_FINAL (cycle_emitted env feedback s) = 1
       ↔ ∃ p, p ∈ items (cycle_stream env feedback s cm pj)
              ∧ state (plan p) = "Complete").
Proof.
  assert (∀ sid cm pj, loads env s sid cm pj →
    count_type AGENT_FINAL (cycle_emitted env feedback s)
    = if existsb is_complete (items (cycle_stream env feedback s cm pj)) then 1 else 0)
    as Hcount.
  { intros sid cm pj Hl.
    destruct (ends_cycle _ _ _ _ _ _ (send_feedback_loaded env feedback s _ _ _ Hl))
      as (Hm & _ & _).
    unfold cycle_emitted.
    rewrite (matches_count _ _ _ Hm (cycle_trace_new _ _ _ _ _)).
    rewrite cycle_trace_count by auto. by rewrite stream_trace_count_final. }
  split.
  - destruct (send_feedback_cases env feedback s)
      as [(sid & cm & pj & Hl)|(tr & e & Hf & Hends)].
    + rewrite (Hcount _ _ _ Hl). destruct (existsb _ _); lia.
    + destruct (ends_cycle _ _ _ _ _ _ Hends) as (Hm & _ & _).
      unfold cycle_emitted.
      rewrite (matches_count _ _ _ Hm (load_failure_new _ _ _ _ Hf)).
      unfold a_count. simpl. rewrite (proj1 (load_failure_types _ _ _ _ Hf)).
      simpl. lia.
  - intros sid cm pj Hl. rewrite (Hcount _ _ _ Hl), <- existsb_is_complete.
    destruct (existsb _ _); split; (done || lia).
Qed.

(** The demo stream has a completed plan (twice): one [agent_final]. *)
Lemma C2_agent_final_witness :
  count_type AGENT_FINAL (cycle_emitted demo_env "make it blue" demo_state) = 1.
Proof.
  apply (proj2 (C2_agent_final demo_env "make it blue" demo_state)
           _ _ _ demo_loads).
  exists (mkPartial (mkPlan "Edit the app" "Complete")
                    [mkFile "src/App.tsx" "first draft"]).
  split; [|reflexivity]. simpl. set_solver.
Defined.

(** C4. The number of [update_file] envelopes a cycle emits is the number of
    distinct paths in the [files] lists of the stream's items: a path met in
    several items is notified once. (A cycle that stops in the load stage
    opens no stream and emits none.) *)
Theorem C4_update_file_count env feedback s :
  (∀ sid cm pj, loads env s sid cm pj →
     count_type UPDATE_FILE (cycle_emitted env feedback s)
     = size (list_to_set (C := gset string)
               (path <$> all_files (items (cycle_stream env feedback s cm pj)))))
  ∧ ((¬ ∃ sid cm pj, loads env s sid cm pj) →
     count_type UPDATE_FILE (cycle_emitted env feedback s) = 0).
Proof.
  split.
  - intros sid cm pj Hl.
    destruct (ends_cycle _ _ _ _ _ _ (send_feedback_loaded env feedback s _ _ _ Hl))
      as (Hm & _ & _).
    unfold cycle_emitted.
    rewrite (matches_count _ _ _ Hm (cycle_trace_new _ _ _ _ _)).
    rewrite cycle_trace_count by auto.
    pose proof (stream_trace_count_file (plan_msg_id env s) (file_msg_id env s)
                  (items (cycle_stream env feedback s cm pj)) (false, ∅)) as Hc.
    simpl in Hc. rewrite map_size_empty, Nat.add_0_r in Hc. rewrite Hc.
    rewrite stream_loc_files. simpl.
    rewrite <- size_dom, files_map_dom, dom_empty_L. f_equal. set_solver.
  - intros Hnot.
    destruct (send_feedback_cases env feedback s) as [Hl|(tr & e & Hf & Hends)];
      [by destruct Hnot|].
    destruct (ends_cycle _ _ _ _ _ _ Hends) as (Hm & _ & _).
    unfold cycle_emitted.
    rewrite (matches_count _ _ _ Hm (load_failure_new _ _ _ _ Hf)).
    unfold a_count. simpl. by rewrite (proj1 (load_failure_types _ _ _ _ Hf)).
Qed.

(** The demo stream names one path in two items: one [update_file]. *)
Lemma C4_update_file_count_witness :
  count_type UPDATE_FILE (cycle_emitted demo_env "make it blue" demo_state) = 1
  ∧ count_type UPDATE_FILE (cycle_emitted demo_env "make it blue" fresh_state) = 0.
Proof.
  split.
  - rewrite (proj1 (C4_update_file_count demo_env "make it blue" demo_state)
               _ _ _ demo_loads).
    vm_compute. reflexivity.
  - apply (proj2 (C4_update_file_count demo_env "make it blue" fresh_state)).
    intros (sid & cm & pj & m & Hi & Hk & _).
    injection Hi as <-. discriminate Hk.
Defined.

(** C9. A cycle changes the conversation history only when the loop meets
    the first item whose [plan.state] is ["Complete"]: it appends one user
    turn with the feedback and then one assistant turn with that item's plan
    text. After any number of items the history is the old one followed by
    that pair if a completed plan was among them and the old one otherwise;
    a cycle that stops in the load stage leaves it as it was. *)
Theorem C9_history_once env feedback s :
  (∀ sid cm pj, loads env s sid cm pj →
     cycle_history env feedback s
     = history s ++ first_complete_turns feedback
                      (items (cycle_stream env feedback s cm pj)))
  ∧ ((¬ ∃ sid cm pj, loads env s sid cm pj) →
     cycle_history env feedback s = history s)
  ∧ (∀ pid fid ps ncm s0,
       history (for_in (process_partial env feedback pid fid) ps (false, ncm) s0).1
       = history s0 ++ first_complete_turns feedback ps).
Proof.
  split; [|split].
  - intros sid cm pj Hl.
    destruct (ends_cycle _ _ _ _ _ _ (send_feedback_loaded env feedback s _ _ _ Hl))
      as (_ & -> & _).
    by rewrite stream_turns_first.
  - intros Hnot.
    destruct (send_feedback_cases env feedback s) as [Hl|(tr & e & Hf & Hends)];
      [by destruct Hnot|].
    destruct (ends_cycle _ _ _ _ _ _ Hends) as (_ & -> & _). by rewrite app_nil_r.
  - intros pid fid ps ncm s0.
    destruct (runs_stream env feedback pid fid ps (false, ncm) s0)
      as (s' & evs & Hrun & _ & _ & Hh & _).
    rewrite Hrun. simpl. by rewrite Hh, stream_turns_first.
Qed.

(** In the demo cycle the second item completes the plan. *)
Lemma C9_history_once_witness :
  cycle_history demo_env "make it blue" demo_state
  = [mkTurn "user" "make it blue"; mkTurn "assistant" "Edit the app"]
  ∧ cycle_history demo_env "make it blue" fresh_state = [].
Proof.
  split.
  - apply (proj1 (C9_history_once demo_env "make it blue" demo_state)
             _ _ _ demo_loads).
  - apply (proj1 (proj2 (C9_history_once demo_env "make it blue" fresh_state))).
    intros (sid & cm & pj & m & Hi & Hk & _).
    injection Hi as <-. discriminate Hk.
Defined.

(** C8. With [uuid4] producing non-empty strings, every [agent_partial] and
    [agent_final] envelope of a cycle carries the id allocated on line 205,
    and every [update_file] envelope the id allocated on line 206; these are
    two successive draws of [uuid4], different whenever the draws are. *)
Theorem C8_stable_ids env feedback s :
  (∀ k, uuid4 env k ≠ EmptyString) →
  (∀ d, d ∈ cycle_emitted env feedback s →
     (dict_type d = Some "agent_partial" ∨ dict_type d = Some "agent_final" →
      dict_id d = Some (plan_msg_id env s))
     ∧ (dict_type d = Some "update_file" → dict_id d = Some (file_msg_id env s)))
  ∧ ((∀ i j, uuid4 env i = uuid4 env j → i = j) →
     plan_msg_id env s ≠ file_msg_id env s).
Proof.
  intros Hne. split.
  2: { intros Hinj Heq. apply Hinj in Heq. lia. }
  intros d Hd.
  assert (∀ tr, Forall2 matches tr (cycle_events env feedback s) → made_by_new tr →
    (∀ ty dd oid, ANew ty dd oid ∈ tr →
       (ty = AGENT_PARTIAL ∨ ty = AGENT_FINAL → oid = Some (plan_msg_id env s))
       ∧ (ty = UPDATE_FILE → oid = Some (file_msg_id env s))) →
    (dict_type d = Some "agent_partial" ∨ dict_type d = Some "agent_final" →
      dict_id d = Some (plan_msg_id env s))
    ∧ (dict_type d = Some "update_file" → dict_id d = Some (file_msg_id env s)))
    as Hids.
  { intros tr Hm Hnew Htr.
    destruct (matches_emitted _ _ _ Hm Hnew Hd)
      as (ty & dd & oid & m & Hin & -> & Hty & _ & Hid).
    destruct (Htr _ _ _ Hin) as [Hp Hf]. rewrite dict_type_to_dict, dict_id_to_dict, Hty.
    split.
    - intros Hcase. f_equal. apply Hid; [|apply Hne]. apply Hp.
      destruct Hcase as [[= Hv]|[= Hv]];
        [left; by apply (MessageType_value_inj ty AGENT_PARTIAL)
        |right; by apply (MessageType_value_inj ty AGENT_FINAL)].
    - intros [= Hv]. f_equal. apply Hid; [|apply Hne]. apply Hf.
      by apply (MessageType_value_inj ty UPDATE_FILE). }
  destruct (send_feedback_cases env feedback s)
    as [(sid & cm & pj & Hl)|(tr & e & Hf & Hends)].
  - destruct (ends_cycle _ _ _ _ _ _ (send_feedback_loaded env feedback s _ _ _ Hl))
      as (Hm & _ & _).
    apply (Hids _ Hm (cycle_trace_new _ _ _ _ _)).
    intros ty dd oid. unfold cycle_trace.
    rewrite !elem_of_app, !elem_of_cons, elem_of_nil.
    intros [[[= -> -> ->]|[[=]|[]]]|[Ha|Ha]].
    + split; [intros [|]|]; discriminate.
    + destruct (stream_trace_elem _ _ _ _ _ Ha) as (d' & [[= -> -> ->]|[[= -> -> ->]|[= -> -> ->]]]);
        split; try done; intros [|]; done.
    + destruct (cycle_tail_cases env sid (cycle_stream env feedback s cm pj)
                  (stream_loc (items (cycle_stream env feedback s cm pj)) (false, ∅)).2)
        as [[_ Heq]|[_ [Heq|Heq]]]; rewrite Heq in Ha; simpl in Ha.
      * by apply elem_of_nil in Ha.
      * rewrite !elem_of_cons, elem_of_nil in Ha.
        destruct Ha as [[=]|[[= -> -> ->]|[]]]. split; [intros [|]|]; discriminate.
      * rewrite !elem_of_cons, elem_of_nil in Ha. by destruct Ha as [[=]|[]].
  - destruct (ends_cycle _ _ _ _ _ _ Hends) as (Hm & _ & _).
    apply (Hids _ Hm (load_failure_new _ _ _ _ Hf)).
    intros ty dd oid. rewrite elem_of_cons.
    intros [[= -> -> ->]|Ha]; [split; [intros [|]|]; discriminate|].
    destruct Hf; set_solver.
Qed.

Lemma demo_uuid_nonempty k : demo_uuid k ≠ EmptyString.
Proof. unfold demo_uuid. simpl. discriminate. Qed.

Lemma demo_uuid_inj i j : demo_uuid i = demo_uuid j → i = j.
Proof.
  unfold demo_uuid. intros H.
  apply (f_equal String.list_ascii_of_string) in H.
  rewrite !String.list_ascii_of_string_of_list_ascii in H.
  apply app_inv_head, (f_equal length) in H.
  rewrite !length_replicate in H. lia.
Qed.

(** In the demo cycle the plan envelopes share the second draw and the file
    envelope carries the third. *)
Lemma C8_stable_ids_witness :
  (∀ d, d ∈ cycle_emitted demo_env "make it blue" demo_state →
     (dict_type d = Some "agent_partial" ∨ dict_type d = Some "agent_final" →
      dict_id d = Some "00000000-0000-4000-8000-aa")
     ∧ (dict_type d = Some "update_file" →
        dict_id d = Some "00000000-0000-4000-8000-aaa"))
  ∧ ((∀ i j, demo_uuid i = demo_uuid j → i = j) →
     plan_msg_id demo_env demo_state ≠ file_msg_id demo_env demo_state).
Proof.
  apply (C8_stable_ids demo_env "make it blue" demo_state).
  intros k. simpl. unfold demo_uuid. simpl. discriminate.
Defined.

(** C1 (as the code has it). In every cycle whose stream is exhausted
    without error, the single [edit_code] call commits one entry for each
    distinct path seen in the stream, holding the content of the first
    entry seen for that path: the assignment on line 240 is guarded by the
    same [if] as the notification, so a later entry for a path already in
    the map changes nothing. *)
Theorem C1_first_content_committed env feedback s sid cm pj :
  loads env s sid cm pj →
  raises (cycle_stream env feedback s cm pj) = false →
  ∃ ncm : gmap string string,
    cycle_writes env feedback s = [edit_arguments sid ncm]
    ∧ dom ncm = list_to_set (path <$> all_files (items (cycle_stream env feedback s cm pj)))
    ∧ ∀ pre f post,
        all_files (items (cycle_stream env feedback s cm pj)) = pre ++ f :: post →
        path f ∉ path <$> pre →
        ncm !! path f = Some (content f).
Proof.
  intros Hl Hra. set (st := cycle_stream env feedback s cm pj) in *.
  exists (stream_loc (items st) (false, ∅)).2.
  destruct (ends_cycle _ _ _ _ _ _ (send_feedback_loaded env feedback s _ _ _ Hl))
    as (Hm & _ & _).
  fold st in Hm. split; [|split].
  - unfold cycle_writes. rewrite (matches_edits _ _ Hm).
    unfold cycle_trace. rewrite !a_edits_app.
    assert (a_edits (stream_trace (plan_msg_id env s) (file_msg_id env s)
                       (items st) (false, ∅)) = []) as ->.
    { apply elem_of_nil_inv. intros a. unfold a_edits. rewrite list_elem_of_omap.
      intros (x & Hx & Hy).
      by destruct (stream_trace_elem _ _ _ _ _ Hx) as (d & [->|[->| ->]]). }
    destruct (cycle_tail_cases env sid st (stream_loc (items st) (false, ∅)).2)
      as [[Hra' _]|[_ [->| ->]]]; [congruence | done..].
  - rewrite stream_loc_files, files_map_dom. simpl. rewrite dom_empty_L. set_solver.
  - intros pre f post Heq Hfirst. rewrite stream_loc_files, Heq. simpl.
    by apply files_map_first.
Qed.

(** The demo stream sends [src/App.tsx] twice; its first content stands. *)
Lemma C1_first_content_committed_witness :
  ∃ ncm : gmap string string,
    cycle_writes demo_env "make it blue" demo_state = [edit_arguments (JStr "sb-1") ncm]
    ∧ dom ncm = list_to_set (path <$> all_files demo_items)
    ∧ ∀ pre f post,
        all_files demo_items = pre ++ f :: post →
        path f ∉ path <$> pre →
        ncm !! path f = Some (content f).
Proof.
  apply (C1_first_content_committed demo_env "make it blue" demo_state
           (JStr "sb-1") demo_code_map (JStr "{}") demo_loads).
  reflexivity.
Defined.

Lemma edit_arguments_inj sid ncm ncm' :
  edit_arguments sid ncm = edit_arguments sid ncm' → ncm = ncm'.
Proof.
  intros H. apply (f_equal (λ a, a !! "code_map")) in H.
  unfold edit_arguments in H. rewrite !lookup_insert_ne in H by done.
  rewrite !lookup_singleton_eq in H. injection H as H.
  apply map_eq. intros k. apply (f_equal (λ m, m !! k)) in H.
  rewrite !lookup_fmap in H. destruct (ncm !! k), (ncm' !! k); simpl in H; congruence.
Qed.

(** C1 as stated fails: the demo stream's two items carry [src/App.tsx]
    with different content and the stream then ends; the cycle commits the
    earlier item's content, not the later one's. *)
Lemma C1_counterexample :
  cycle_result demo_env "make it blue" demo_state = Ok tt
  ∧ cycle_writes demo_env "make it blue" demo_state
    = [edit_arguments (JStr "sb-1") {[ "src/App.tsx" := "first draft" ]}]
  ∧ ¬ (∃ ncm : gmap string string,
         cycle_writes demo_env "make it blue" demo_state
         = [edit_arguments (JStr "sb-1") ncm]
         ∧ ncm !! "src/App.tsx" = Some "second draft").
Proof.
  assert (cycle_writes demo_env "make it blue" demo_state
          = [edit_arguments (JStr "sb-1") {[ "src/App.tsx" := "first draft" ]}]) as Hw.
  { vm_compute. reflexivity. }
  split; [vm_compute; reflexivity|]. split; [exact Hw|].
  intros (ncm & Heq & Hsecond). rewrite Hw in Heq.
  apply (f_equal head) in Heq. simpl in Heq. apply (inj Some) in Heq.
  apply edit_arguments_inj in Heq. subst ncm. vm_compute in Hsecond. discriminate.
Qed.

(** ** [Message.new] *)

(** C6 (as the code has it). [Message.new] never fails; it keeps a supplied
    id that is not the empty string, and draws a fresh [uuid4] when no id is
    supplied or the supplied id is empty ([id or ...] treats both alike). *)
Theorem C6_envelope_id env ty d oid s :
  ∃ m s', Message_new env ty d oid s = (s', Ok m)
    ∧ type m = ty ∧ data m = d
    ∧ timestamp m = (time_ns env (clock_reads s) / 1000000)%Z
    ∧ (∀ i, oid = Some i → i ≠ EmptyString → id m = i ∧ uuid_calls s' = uuid_calls s)
    ∧ (oid = None ∨ oid = Some EmptyString →
       id m = uuid4 env (uuid_calls s) ∧ uuid_calls s' = S (uuid_calls s)).
Proof.
  unfold Message_new, mbind, M_bind, bind, mret, M_ret, ret.
  destruct oid as [i|]; [destruct (decide (i = EmptyString)) as [->|Hi]|]; simpl.
  all: eexists _, _; split; [reflexivity|]; simpl.
  all: split; [done|]; split; [done|]; split; [done|]; split.
  - by intros i' [= <-] Hne.
  - done.
  - by intros i' [= <-] _.
  - by intros [|[= ->]].
  - by intros i' [=].
  - done.
Qed.

(** A supplied id is kept; without one the next [uuid4] is taken. *)
Lemma C6_envelope_id_witness :
  (∃ m s', Message_new demo_env USER (JObj ∅) (Some "msg-1") fresh_state = (s', Ok m)
           ∧ id m = "msg-1")
  ∧ (∃ m s', Message_new demo_env USER (JObj ∅) None fresh_state = (s', Ok m)
             ∧ id m = "00000000-0000-4000-8000-a").
Proof.
  split.
  - destruct (C6_envelope_id demo_env USER (JObj ∅) (Some "msg-1") fresh_state)
      as (m & s' & Hrun & _ & _ & _ & Hkeep & _).
    exists m, s'. split; [exact Hrun|]. by apply (Hkeep "msg-1").
  - destruct (C6_envelope_id demo_env USER (JObj ∅) None fresh_state)
      as (m & s' & Hrun & _ & _ & _ & _ & Hdraw).
    exists m, s'. split; [exact Hrun|]. apply Hdraw. by left.
Defined.

(** C6 as stated fails: a supplied id that is the empty string is not the
    constructed envelope's id. *)
Lemma C6_counterexample :
  ∃ m s', Message_new demo_env USER (JObj ∅) (Some EmptyString) fresh_state = (s', Ok m)
          ∧ id m = "00000000-0000-4000-8000-a" ∧ id m ≠ EmptyString.
Proof. eexists _, _. split; [reflexivity|]. by split. Qed.

(** ** The [load_code] reply *)

Lemma FsEntry_nested_ind (P : FsEntry → Prop) :
  (∀ name bytes, P (FsFile name bytes)) →
  (∀ name children, Forall P children → P (FsDir name children)) →
  ∀ e, P e.
Proof.
  intros Hfile Hdir. fix IH 1. intros [name bytes|name children].
  - apply Hfile.
  - apply Hdir. induction children as [|c cs IHcs]; constructor; [apply IH | exact IHcs].
Qed.

Lemma string_append_assoc (a b c : string) : (a +:+ b) +:+ c = a +:+ (b +:+ c).
Proof.
  induction a as [|ch a IH]; [done|].
  change (String ch ((a +:+ b) +:+ c) = String ch (a +:+ (b +:+ c))). by f_equal.
Qed.

Section LoadCodeTool.
Implicit Types (fm : gmap string string) (e : FsEntry).

(** Whatever the walk leaves in the map was there before or is a file of
    the tree, under its full path. *)
Lemma process_entry_sound e : ∀ dir fm k v,
  process_entry dir e fm !! k = Some v →
  fm !! k = Some v ∨ file_in dir e k v.
Proof.
  induction e as [name bytes|name children IH] using FsEntry_nested_ind;
    intros dir fm k v; simpl.
  - rewrite lookup_insert. destruct (decide (path_join dir name = k)) as [<-|].
    + intros [= <-]. right. constructor.
    + by left.
  - revert fm. induction IH as [|c cs Hc _ IHcs]; intros fm; simpl; [by left|].
    intros H. destruct (IHcs _ H) as [H'|H'].
    + destruct (Hc _ _ _ _ H') as [?|Hin]; [by left|].
      right. eapply file_in_dir; [|exact Hin]. by left.
    + right. inversion H'; subst. eapply file_in_dir; [|eassumption]. by right.
Qed.

Lemma process_entry_dom_mono e : ∀ dir fm, dom fm ⊆ dom (process_entry dir e fm).
Proof.
  induction e as [name bytes|name children IH] using FsEntry_nested_ind;
    intros dir fm; simpl.
  - rewrite dom_insert. set_solver.
  - revert fm. induction IH as [|c cs Hc _ IHcs]; intros fm; simpl; [done|].
    etrans; [apply Hc | apply IHcs].
Qed.

Lemma fold_process_dom_mono dir cs : ∀ fm,
  dom fm ⊆ dom (fold_left (λ fm c, process_entry dir c fm) cs fm).
Proof.
  induction cs as [|c cs IH]; intros fm; simpl; [done|].
  etrans; [apply process_entry_dom_mono | apply IH].
Qed.

(** Every file of the tree gets its full path into the map. *)
Lemma process_entry_complete dir e k v :
  file_in dir e k v → ∀ fm, k ∈ dom (process_entry dir e fm).
Proof.
  induction 1 as [dir name bytes|dir name children c k v Hc Hin IH]; intros fm; simpl.
  - rewrite dom_insert. set_solver.
  - revert fm. induction children as [|c' cs IHcs]; intros fm;
      [by apply elem_of_nil in Hc|]. simpl.
    apply elem_of_cons in Hc as [<-|Hc].
    + apply fold_process_dom_mono, IH.
    + by apply IHcs.
Qed.

Lemma process_directory_sound dir cs : ∀ fm k v,
  _process_directory dir cs fm !! k = Some v →
  fm !! k = Some v ∨ ∃ e, e ∈ cs ∧ file_in dir e k v.
Proof.
  unfold _process_directory.
  induction cs as [|c cs IH]; intros fm k v; simpl; [by left|].
  intros H. destruct (IH _ _ _ H) as [H'|(e & He & Hin)].
  - destruct (process_entry_sound _ _ _ _ _ H') as [?|Hin]; [by left|].
    right. exists c. split; [by left | done].
  - right. exists e. split; [by right | done].
Qed.

Lemma process_directory_complete dir cs e k v :
  e ∈ cs → file_in dir e k v → ∀ fm, k ∈ dom (_process_directory dir cs fm).
Proof.
  unfold _process_directory. intros He Hin.
  induction cs as [|c cs IH]; intros fm; [by apply elem_of_nil in He|]. simpl.
  apply elem_of_cons in He as [<-|He].
  - apply (fold_process_dom_mono _ _ _ k). by eapply process_entry_complete.
  - by apply IH.
Qed.

Lemma file_in_path dir e k v :
  file_in dir e k v → ∃ rest, k = dir +:+ "/" +:+ rest.
Proof.
  induction 1 as [dir name bytes|dir name children c k v Hc Hin (rest & ->)].
  - by exists name.
  - exists (name +:+ "/" +:+ rest). unfold path_join.
    by rewrite !string_append_assoc.
Qed.
End LoadCodeTool.

(** What [handler] answers to a well-formed [load_code] request when the
    tool call succeeds: one envelope whose data is the decoded reply. *)
Lemma handler_load_code env s msg dm sandbox_id reply :
  msg !! "type" = Some (JStr "load_code") →
  msg !! "data" = Some (JObj dm) →
  dm !! "sandbox_id" = Some sandbox_id →
  call_tool env T_LOAD_CODE {[ "sandbox_id" := sandbox_id ]} = Some reply →
  ∃ m, (handler env msg s).2 = Ok (Envelope (to_dict m))
       ∧ type m = LOAD_CODE ∧ data m = reply.
Proof.
  intros Htype Hdata Hsid Hcall. unfold handler. rewrite Htype.
  unfold mbind, M_bind, bind, getitem, load_code, session_call_tool, emit, Message_new,
    uuid4_str, read_time_ns, mret, M_ret, ret.
  rewrite Hdata. simpl. rewrite Hsid. simpl. rewrite Hcall. simpl.
  eexists. split; [reflexivity|]. by split.
Qed.

(** C5 (as the code has it). Dispatching a well-formed [load_code] envelope
    whose tool call succeeds returns exactly one envelope, of type
    [load_code]; the file mapping the [load_code] tool builds for it is
    keyed by each file's full sandbox path, which starts with the code root
    ["/app/src/"], and maps that path to the file's content. *)
Theorem C5_load_code_reply env remote s msg dm sid sandbox fm pj :
  serves_load_code env remote →
  msg !! "type" = Some (JStr "load_code") →
  msg !! "data" = Some (JObj dm) →
  dm !! "sandbox_id" = Some (JStr sid) →
  remote !! sid = Some sandbox →
  tools_load_code remote sid = Some (fm, pj) →
  (∃ d, (handler env msg s).2 = Ok (Envelope d) ∧ dict_type d = Some "load_code")
  ∧ (∀ k v, fm !! k = Some v →
       ∃ e, e ∈ app_src sandbox ∧ file_in DEFAULT_CODE_PATH e k v)
  ∧ (∀ e k v, e ∈ app_src sandbox → file_in DEFAULT_CODE_PATH e k v → k ∈ dom fm)
  ∧ (∀ k, k ∈ dom fm → ∃ rest, k = "/app/src/" +:+ rest).
Proof.
  intros Hserve Htype Hdata Hsid Hsb Htool.
  assert (fm = _process_directory DEFAULT_CODE_PATH (app_src sandbox) ∅) as Hfm.
  { unfold tools_load_code in Htool. rewrite Hsb in Htool. simpl in Htool.
    destruct (package_json_file sandbox); simpl in Htool; congruence. }
  split; [|split; [|split]].
  - destruct (handler_load_code env s msg dm (JStr sid) (tool_response (fm, pj))
                Htype Hdata Hsid) as (m & Hrun & Hty & _).
    { by rewrite Hserve, Htool. }
    exists (to_dict m). split; [exact Hrun|]. by rewrite dict_type_to_dict, Hty.
  - intros k v Hk. rewrite Hfm in Hk.
    destruct (process_directory_sound _ _ _ _ _ Hk) as [Hempty|Hin];
      [by rewrite lookup_empty in Hempty | done].
  - intros e k v He Hin. rewrite Hfm. by eapply process_directory_complete.
  - intros k [v Hk]%elem_of_dom. rewrite Hfm in Hk.
    destruct (process_directory_sound _ _ _ _ _ Hk) as [Hempty|(e & _ & Hin)];
      [by rewrite lookup_empty in Hempty|].
    destruct (file_in_path _ _ _ _ Hin) as (rest & ->). exists rest.
    unfold DEFAULT_CODE_PATH. by rewrite <- string_append_assoc.
Qed.

Lemma demo_serves : serves_load_code demo_env demo_remote.
Proof. intros sid. simpl. unfold demo_call_tool. by rewrite lookup_singleton_eq. Qed.

(** The demo sandbox: one envelope, keys under [/app/src/]. *)
Lemma C5_load_code_reply_witness :
  (∃ d, (handler demo_env demo_load_msg demo_state).2 = Ok (Envelope d)
        ∧ dict_type d = Some "load_code")
  ∧ ∀ k, k ∈ dom (_process_directory DEFAULT_CODE_PATH (app_src demo_sandbox) ∅) →
         ∃ rest, k = "/app/src/" +:+ rest.
Proof.
  destruct (C5_load_code_reply demo_env demo_remote demo_state demo_load_msg
              {[ "sandbox_id" := JStr "sb-1" ]} "sb-1" demo_sandbox
              (_process_directory DEFAULT_CODE_PATH (app_src demo_sandbox) ∅) "{}"
              demo_serves eq_refl eq_refl eq_refl eq_refl eq_refl)
    as (Henv & _ & _ & Hkeys).
  by split.
Defined.

(** C5 as stated fails: for the demo sandbox the envelope's data is the
    tool's two-element reply, not a mapping, and the mapping inside it has
    the key [/app/src/App.tsx], not the relative [App.tsx]. *)
Lemma C5_counterexample :
  ∃ d, (handler demo_env demo_load_msg demo_state).2 = Ok (Envelope d)
       ∧ dict_data d = Some (JArr [JObj demo_code_map; JStr "{}"])
       ∧ (∀ fm, dict_data d ≠ Some (JObj fm))
       ∧ demo_code_map !! "App.tsx" = None
       ∧ demo_code_map !! "/app/src/App.tsx" = Some (JStr "export default App").
Proof.
  eexists. split; [vm_compute; reflexivity|].
  split; [vm_compute; reflexivity|].
  split; [intros fm; vm_compute; discriminate|].
  split; vm_compute; reflexivity.
Qed.

(** ** The dispatcher *)

Local Ltac split_type_string :=
  repeat match goal with
  | |- context [match ?str with EmptyString => _ | String _ _ => _ end] =>
      is_var str; destruct str as [|[[] [] [] [] [] [] [] []] str]; try reflexivity
  end.

(** [handler] answers an envelope whose type is none of [user], [init],
    [load_code] and [get_code_for_display], or that has no type, with the
    empty dict and does nothing else: no event, no change of the agent. *)
Theorem handler_unknown_type env msg s :
  (∀ t, t ∈ [USER; INIT; LOAD_CODE; GET_CODE_FOR_DISPLAY] →
        msg !! "type" ≠ Some (JStr (MessageType_value t))) →
  handler env msg s = (s, Ok EmptyDict).
Proof.
  intros Hnot. unfold handler.
  destruct (msg !! "type") as [[| |str| |]|]; try reflexivity.
  assert (str ≠ "user" ∧ str ≠ "init" ∧ str ≠ "load_code" ∧ str ≠ "get_code_for_display")
    as (H1 & H2 & H3 & H4).
  { split; [|split; [|split]]; intros ->.
    - apply (Hnot USER); [set_solver | reflexivity].
    - apply (Hnot INIT); [set_solver | reflexivity].
    - apply (Hnot LOAD_CODE); [set_solver | reflexivity].
    - apply (Hnot GET_CODE_FOR_DISPLAY); [set_solver | reflexivity]. }
  clear Hnot. split_type_string.
  all: done.
Qed.

(** An inbound [edit_code] envelope, and one without a type, get [{}]. *)
Lemma handler_unknown_type_witness :
  handler demo_env {[ "type" := JStr "edit_code" ]} demo_state = (demo_state, Ok EmptyDict)
  ∧ handler demo_env ∅ demo_state = (demo_state, Ok EmptyDict).
Proof.
  split; apply handler_unknown_type; intros t Ht.
  - rewrite lookup_singleton_eq. intros [= Heq].
    rewrite !elem_of_cons, elem_of_nil in Ht.
    destruct Ht as [->|[->|[->|[->|[]]]]]; discriminate Heq.
  - by rewrite lookup_empty.
Defined.

(** Dispatching a [user] envelope starts nothing: the agent, its history
    and the event log are as before, and the answer is the suspended
    generator for [msg["data"]["text"]]; a missing [data] or [text] is a
    key error. *)
Theorem handler_user_is_lazy env msg s :
  msg !! "type" = Some (JStr "user") →
  (handler env msg s).1 = s
  ∧ (∀ dm text, msg !! "data" = Some (JObj dm) → dm !! "text" = Some text →
       (handler env msg s).2 = Ok (FeedbackGenerator text))
  ∧ (msg !! "data" = None → (handler env msg s).2 = Raise (KeyError "data"))
  ∧ (∀ dm, msg !! "data" = Some (JObj dm) → dm !! "text" = None →
       (handler env msg s).2 = Raise (KeyError "text")).
Proof.
  intros Htype. unfold handler. rewrite Htype.
  unfold mbind, M_bind, bind, getitem, mret, M_ret, ret, raise.
  split; [|split; [|split]].
  - destruct (msg !! "data") as [[| | | |dm]|]; try reflexivity.
    by destruct (dm !! "text").
  - intros dm text -> Htext. simpl. by rewrite Htext.
  - by intros ->.
  - intros dm -> Htext. simpl. by rewrite Htext.
Qed.

Lemma handler_user_is_lazy_witness :
  handler demo_env (<["type" := JStr "user"]> {[ "data" := text_payload "make it blue" ]})
          demo_state
  = (demo_state, Ok (FeedbackGenerator (JStr "make it blue"))).
Proof.
  assert ((<["type" := JStr "user"]> {[ "data" := text_payload "make it blue" ]}
           : gmap string json) !! "type" = Some (JStr "user")) as Htype by reflexivity.
  destruct (handler_user_is_lazy demo_env _ demo_state Htype) as (Hs & Hr & _).
  rewrite (surjective_pairing (handler _ _ _)), Hs.
  rewrite (Hr {[ "text" := JStr "make it blue" ]} (JStr "make it blue"));
    reflexivity.
Defined.

(** A successful [init] request lists the tools, creates the environment
    with one call, stores the call's reply as [init_data] and answers with
    one [init] envelope carrying that reply; history is untouched. *)
Theorem handler_init_stores_reply env msg s ts reply :
  msg !! "type" = Some (JStr "init") →
  list_tools env = Some ts →
  call_tool env T_CREATE_APP_ENVIRONMENT ∅ = Some reply →
  ∃ m s', handler env msg s = (s', Ok (Envelope (to_dict m)))
    ∧ type m = INIT ∧ data m = reply
    ∧ init_data s' = reply ∧ tools s' = ts ∧ history s' = history s
    ∧ log s' = log s ++ [ListTools; CallTool T_CREATE_APP_ENVIRONMENT ∅].
Proof.
  intros Htype Hlist Hcall. unfold handler. rewrite Htype.
  unfold init, load_tools, create_app_environment, session_call_tool, emit,
    set_tools, set_init_data, get_state, Message_new, uuid4_str, read_time_ns,
    mbind, M_bind, bind, mret, M_ret, ret.
  rewrite Hlist. simpl. rewrite Hcall. simpl.
  eexists _, _. split; [reflexivity|]. simpl.
  by rewrite <- app_assoc.
Qed.

Lemma handler_init_stores_reply_witness :
  ∃ m s', handler demo_env {[ "type" := JStr "init" ]} fresh_state
          = (s', Ok (Envelope (to_dict m)))
    ∧ init_data s' = init_data demo_state.
Proof.
  assert (({[ "type" := JStr "init" ]} : gmap string json) !! "type"
          = Some (JStr "init")) as Htype by reflexivity.
  destruct (handler_init_stores_reply demo_env _ fresh_state [] _ Htype eq_refl eq_refl)
    as (m & s' & Hrun & _ & _ & Hinit & _).
  by exists m, s'.
Defined.

(** When [init] fails the agent keeps the [init_data] it had: if listing the
    tools raises, the environment is not even requested; if creating the
    environment raises, only the tool list has changed. *)
Theorem handler_init_failure env msg s :
  msg !! "type" = Some (JStr "init") →
  (list_tools env = None →
     (handler env msg s).2 = Raise SessionError
     ∧ init_data (handler env msg s).1 = init_data s
     ∧ tools (handler env msg s).1 = tools s
     ∧ log (handler env msg s).1 = log s ++ [ListTools])
  ∧ (∀ ts, list_tools env = Some ts →
       call_tool env T_CREATE_APP_ENVIRONMENT ∅ = None →
       (handler env msg s).2 = Raise (ToolError T_CREATE_APP_ENVIRONMENT)
       ∧ init_data (handler env msg s).1 = init_data s
       ∧ tools (handler env msg s).1 = ts).
Proof.
  intros Htype. unfold handler. rewrite Htype.
  unfold init, load_tools, create_app_environment, session_call_tool, emit,
    set_tools, set_init_data, get_state, Message_new, uuid4_str, read_time_ns,
    mbind, M_bind, bind, mret, M_ret, ret, raise.
  split.
  - intros ->. by simpl.
  - intros ts -> Hcall. simpl. rewrite Hcall. by simpl.
Qed.

Lemma handler_init_failure_witness :
  (handler lost_env {[ "type" := JStr "init" ]} demo_state).2
  = Raise (ToolError T_CREATE_APP_ENVIRONMENT)
  ∧ init_data (handler lost_env {[ "type" := JStr "init" ]} demo_state).1
    = init_data demo_state.
Proof.
  assert (({[ "type" := JStr "init" ]} : gmap string json) !! "type"
          = Some (JStr "init")) as Htype by reflexivity.
  destruct (proj2 (handler_init_failure lost_env _ demo_state Htype) [] eq_refl eq_refl)
    as (Hr & Hi & _).
  by split.
Defined.

(** A [load_code] or [get_code_for_display] request without [data], or
    whose [data] has no [sandbox_id], ends in a key error before any tool
    call: the agent and the event log are as before. *)
Theorem handler_malformed_request env msg s t :
  t = LOAD_CODE ∨ t = GET_CODE_FOR_DISPLAY →
  msg !! "type" = Some (JStr (MessageType_value t)) →
  (msg !! "data" = None → handler env msg s = (s, Raise (KeyError "data")))
  ∧ (∀ dm, msg !! "data" = Some (JObj dm) → dm !! "sandbox_id" = None →
       handler env msg s = (s, Raise (KeyError "sandbox_id"))).
Proof.
  intros Ht Htype. unfold handler. rewrite Htype.
  unfold mbind, M_bind, bind, getitem, raise.
  destruct Ht as [-> | ->]; simpl; split.
  - by intros ->.
  - intros dm -> Hsid. simpl. by rewrite Hsid.
  - by intros ->.
  - intros dm -> Hsid. simpl. by rewrite Hsid.
Qed.

Lemma handler_malformed_request_witness :
  handler demo_env {[ "type" := JStr "load_code" ]} demo_state
  = (demo_state, Raise (KeyError "data")).
Proof.
  assert (({[ "type" := JStr "load_code" ]} : gmap string json) !! "type"
          = Some (JStr (MessageType_value LOAD_CODE))) as Htype by reflexivity.
  apply (proj1 (handler_malformed_request demo_env _ demo_state LOAD_CODE
                  (or_introl eq_refl) Htype)).
  reflexivity.
Defined.

(** A well-formed [get_code_for_display] request whose tool call succeeds
    is answered by one [code_display_response] envelope whose data is the
    tool's reply; it makes that one tool call, with the requested sandbox
    id, and leaves the agent's fields alone. *)
Theorem handler_get_code_for_display env s msg dm sandbox_id reply :
  msg !! "type" = Some (JStr "get_code_for_display") →
  msg !! "data" = Some (JObj dm) →
  dm !! "sandbox_id" = Some sandbox_id →
  call_tool env T_GET_CODE_FOR_DISPLAY {[ "sandbox_id" := sandbox_id ]} = Some reply →
  ∃ m s', handler env msg s = (s', Ok (Envelope (to_dict m)))
    ∧ type m = CODE_DISPLAY_RESPONSE ∧ data m = reply
    ∧ log s' = log s ++ [CallTool T_GET_CODE_FOR_DISPLAY {[ "sandbox_id" := sandbox_id ]}]
    ∧ init_data s' = init_data s ∧ history s' = history s ∧ tools s' = tools s.
Proof.
  intros Htype Hdata Hsid Hcall. unfold handler. rewrite Htype.
  unfold mbind, M_bind, bind, getitem, get_code_for_display, session_call_tool, emit,
    Message_new, uuid4_str, read_time_ns, mret, M_ret, ret.
  rewrite Hdata. simpl. rewrite Hsid. simpl. rewrite Hcall. simpl.
  eexists _, _. split; [reflexivity|]. by simpl.
Qed.

Lemma handler_get_code_for_display_witness :
  ∃ m s', handler display_env
            (<["type" := JStr "get_code_for_display"]>
               {[ "data" := JObj {[ "sandbox_id" := JStr "sb-1" ]} ]})
            demo_state = (s', Ok (Envelope (to_dict m)))
    ∧ data m = display_reply.
Proof.
  assert ((<["type" := JStr "get_code_for_display"]>
             {[ "data" := JObj {[ "sandbox_id" := JStr "sb-1" ]} ]} : gmap string json)
          !! "type" = Some (JStr "get_code_for_display")) as Htype by reflexivity.
  destruct (handler_get_code_for_display display_env demo_state _
              {[ "sandbox_id" := JStr "sb-1" ]} (JStr "sb-1")
              display_reply Htype eq_refl eq_refl eq_refl)
    as (m & s' & Hrun & _ & Hd & _).
  by exists m, s'.
Defined.

(** ** More bridges from traces to observations *)

Lemma a_calls_app tr1 tr2 : a_calls (tr1 ++ tr2) = a_calls tr1 ++ a_calls tr2.
Proof. apply omap_app. Qed.

Lemma a_envs_app tr1 tr2 : a_envs (tr1 ++ tr2) = a_envs tr1 ++ a_envs tr2.
Proof. apply omap_app. Qed.

Lemma matches_calls tr evs :
  Forall2 matches tr evs → tool_calls evs = a_calls tr.
Proof.
  induction 1 as [|a e tr evs Hae _ IH]; [done|].
  destruct a as [ty d oid|e']; simpl in *.
  - destruct Hae as (m & -> & _). simpl. exact IH.
  - subst e'. unfold tool_calls, a_calls in *. simpl.
    destruct e as [d| |n args]; simpl; by rewrite ?IH.
Qed.

Lemma matches_no_list_tools tr evs :
  Forall2 matches tr evs → ALit ListTools ∉ tr → ListTools ∉ evs.
Proof.
  induction 1 as [|a e tr evs Hae _ IH]; intros Hnot; [by intros ?%elem_of_nil|].
  rewrite not_elem_of_cons in Hnot. destruct Hnot as [Hne Hnot].
  rewrite not_elem_of_cons. split; [|by apply IH].
  destruct a as [ty d oid|e']; simpl in Hae.
  - by destruct Hae as (m & -> & _).
  - intros Heq. apply Hne. congruence.
Qed.

Lemma matches_shapes tr evs :
  Forall2 matches tr evs → made_by_new tr →
  shape <$> emitted evs = a_shape <$> a_envs tr.
Proof.
  induction 1 as [|a e tr evs Hae _ IH]; intros Hnew; [done|].
  assert (made_by_new tr) as Hnew' by (intros a' Ha'; apply Hnew; by right).
  specialize (Hnew a (list_elem_of_here _ _)).
  destruct a as [ty d oid|e']; simpl in *.
  - destruct Hae as (m & -> & <- & <- & _). simpl. f_equal. by apply IH.
  - subst e'. destruct e; simpl; [done | by apply IH..].
Qed.

(** Filtering envelopes by type commutes with reading them off a trace. *)
Lemma filter_shapes (Pc : option string → Prop) (Pa : MessageType → Prop)
    `{∀ o, Decision (Pc o)} `{∀ ty, Decision (Pa ty)}
    (ds : list (gmap string json)) (xs : list (MessageType * json)) :
  (∀ ty, Pc (Some (MessageType_value ty)) ↔ Pa ty) →
  shape <$> ds = a_shape <$> xs →
  shape <$> filter (λ d, Pc (dict_type d)) ds = a_shape <$> filter (λ x, Pa x.1) xs.
Proof.
  intros Hiff. revert xs. induction ds as [|d ds IH]; intros [|x xs] Heq; try done.
  injection Heq as Hty Hdata Hrest. rewrite !filter_cons.
  destruct (decide (Pa x.1)) as [Hp|Hp].
  - rewrite decide_True by (rewrite Hty; by apply Hiff).
    rewrite !fmap_cons. f_equal; [unfold shape, a_shape; congruence | by apply IH].
  - rewrite decide_False by (rewrite Hty; by rewrite Hiff).
    by apply IH.
Qed.

(** ** More properties of the loop's denotation *)

Lemma filter_none {A} (P : A → Prop) `{∀ x, Decision (P x)} (l : list A) :
  (∀ x, x ∈ l → ¬ P x) → filter P l = [].
Proof.
  induction l as [|x l IH]; intros Hnot; [done|].
  rewrite filter_cons, decide_False by (apply Hnot; by left).
  apply IH. intros y Hy. apply Hnot. by right.
Qed.

Lemma filter_all {A} (P : A → Prop) `{∀ x, Decision (P x)} (l : list A) :
  (∀ x, x ∈ l → P x) → filter P l = l.
Proof.
  induction l as [|x l IH]; intros Hall; [done|].
  rewrite filter_cons, decide_True by (apply Hall; by left).
  f_equal. apply IH. intros y Hy. apply Hall. by right.
Qed.

Lemma first_seen_app l1 : ∀ l2 seen,
  first_seen seen (l1 ++ l2)
  = first_seen seen l1 ++ first_seen (seen ∪ list_to_set l1) l2.
Proof.
  induction l1 as [|y l1 IH]; intros l2 seen; simpl.
  - by rewrite union_empty_r_L.
  - destruct (decide (y ∈ seen)) as [Hin|Hnin].
    + rewrite IH. do 2 f_equal. set_solver.
    + rewrite IH. simpl. do 3 f_equal. set_solver.
Qed.

Lemma files_trace_envs fid fs : ∀ ncm,
  a_envs (files_trace fid fs ncm) = file_shapes (dom ncm) fs.
Proof.
  unfold file_shapes.
  induction fs as [|f fs IH]; intros ncm; simpl; [done|].
  rewrite a_envs_app, IH. unfold file_trace, first_wins.
  destruct (decide (ncm !! path f = None)) as [Hnew|Hold].
  - rewrite decide_False by (by apply not_elem_of_dom).
    simpl. by rewrite dom_insert_L.
  - rewrite decide_True; [done|].
    apply elem_of_dom. by destruct (ncm !! path f) eqn:E; [eexists|].
Qed.

Lemma plan_trace_envs pid p sent :
  a_envs (plan_trace pid p sent)
  = if sent then []
    else if is_complete p then [(AGENT_FINAL, text_payload (value (plan p)))]
         else [(AGENT_PARTIAL, text_payload (value (plan p)))].
Proof.
  unfold plan_trace, finalises, is_complete, text_payload.
  destruct (decide (state (plan p) = "Complete")) as [Hc|Hc].
  - rewrite (bool_decide_eq_true_2 _ Hc).
    rewrite bool_decide_eq_false_2 by (by intros ?). by destruct sent.
  - rewrite (bool_decide_eq_false_2 _ Hc), bool_decide_eq_true_2 by done.
    by destruct sent.
Qed.

Lemma stream_trace_plan_envs pid fid ps : ∀ loc,
  filter (λ x, is_plan_type x.1) (a_envs (stream_trace pid fid ps loc))
  = if loc.1 then [] else plan_shapes ps.
Proof.
  assert (∀ fs ncm, filter (λ x : MessageType * json, is_plan_type x.1)
                      (a_envs (files_trace fid fs ncm)) = []) as Hfiles.
  { intros fs ncm. apply filter_none. intros x. rewrite files_trace_envs.
    unfold file_shapes. rewrite list_elem_of_fmap. intros (p & -> & _).
    unfold is_plan_type. simpl. intros [H|H]; discriminate H. }
  unfold plan_shapes.
  induction ps as [|p ps IH]; intros [sent ncm]; simpl; [by destruct sent|].
  rewrite !a_envs_app, !filter_app, Hfiles, app_nil_r, IH, plan_trace_envs. simpl.
  unfold finalises. fold (is_complete p).
  destruct sent; rewrite ?andb_false_r, ?andb_true_r; simpl; [done|].
  by destruct (is_complete p).
Qed.

Lemma stream_trace_file_envs pid fid ps : ∀ loc,
  filter (λ x, x.1 = UPDATE_FILE) (a_envs (stream_trace pid fid ps loc))
  = file_shapes (dom loc.2) (all_files ps).
Proof.
  assert (∀ p sent, filter (λ x : MessageType * json, x.1 = UPDATE_FILE)
                      (a_envs (plan_trace pid p sent)) = []) as Hplan.
  { intros p sent. rewrite plan_trace_envs.
    by destruct sent, (is_complete p). }
  assert (∀ fs seen, filter (λ x : MessageType * json, x.1 = UPDATE_FILE)
                       (file_shapes seen fs) = file_shapes seen fs) as Hall.
  { intros fs seen. apply filter_all. intros x. unfold file_shapes.
    rewrite list_elem_of_fmap. by intros (p & -> & _). }
  induction ps as [|p ps IH]; intros loc; simpl; [done|].
  rewrite !a_envs_app, !filter_app, Hplan, IH, files_trace_envs, Hall. simpl.
  unfold file_shapes.
  by rewrite fmap_app, first_seen_app, fmap_app, files_map_dom.
Qed.

(** [first_seen] keeps one occurrence of every path not yet met. *)
Lemma first_seen_elem l : ∀ seen x, x ∈ first_seen seen l ↔ x ∈ l ∧ x ∉ seen.
Proof.
  induction l as [|y l IH]; intros seen x; simpl; [set_solver|].
  destruct (decide (y ∈ seen)).
  - rewrite IH. set_solver.
  - rewrite elem_of_cons, IH. destruct (decide (x = y)); set_solver.
Qed.

Lemma first_seen_nodup l : ∀ seen, NoDup (first_seen seen l).
Proof.
  induction l as [|y l IH]; intros seen; simpl; [constructor|].
  destruct (decide (y ∈ seen)); [apply IH|].
  constructor; [|apply IH]. rewrite first_seen_elem. set_solver.
Qed.

(** ** Order and payloads of a cycle's events *)

Lemma stream_trace_calls pid fid ps loc : a_calls (stream_trace pid fid ps loc) = [].
Proof.
  apply elem_of_nil_inv. intros x. unfold a_calls. rewrite list_elem_of_omap.
  intros (a & Ha & Hx).
  by destruct (stream_trace_elem _ _ _ _ _ Ha) as (d & [->|[->| ->]]).
Qed.

Lemma stream_trace_yields pid fid ps loc evs :
  Forall2 matches (stream_trace pid fid ps loc) evs → ∃ mid, evs = Yield <$> mid.
Proof.
  generalize (stream_trace_elem pid fid ps loc).
  generalize (stream_trace pid fid ps loc). intros tr Htr H.
  induction H as [|a e tr evs Hae _ IH]; [by exists []|].
  destruct IH as (mid & ->); [intros a' Ha'; apply Htr; by right|].
  destruct (Htr a (list_elem_of_here _ _)) as (d & [->|[->| ->]]);
    destruct Hae as (m & -> & _); by exists (to_dict m :: mid).
Qed.

Lemma count_absent t (tys : list MessageType) :
  (∀ ty, ty ∈ tys → ty ≠ t) → length (filter (λ ty, ty = t) tys) = 0.
Proof. intros H. by rewrite filter_none. Qed.

(** A cycle emits [update_completed] exactly when it ends without an
    exception: once then, never otherwise. *)
Theorem completed_iff_ok env feedback s :
  count_type UPDATE_COMPLETED (cycle_emitted env feedback s)
  = match cycle_result env feedback s with Ok _ => 1 | Raise _ => 0 end.
Proof.
  destruct (send_feedback_cases env feedback s)
    as [(sid & cm & pj & Hl)|(tr & e & Hf & Hends)].
  - destruct (ends_cycle _ _ _ _ _ _ (send_feedback_loaded env feedback s _ _ _ Hl))
      as (Hm & _ & ->).
    unfold cycle_emitted.
    rewrite (matches_count _ _ _ Hm (cycle_trace_new _ _ _ _ _)).
    unfold cycle_trace. rewrite !a_count_app.
    assert (a_count UPDATE_COMPLETED
              (stream_trace (plan_msg_id env s) (file_msg_id env s)
                 (items (cycle_stream env feedback s cm pj)) (false, ∅)) = 0) as ->.
    { apply count_absent. intros ty Hty.
      by destruct (stream_trace_types _ _ _ _ _ Hty) as [->|[->| ->]]. }
    by destruct (cycle_tail_cases env sid (cycle_stream env feedback s cm pj)
                (stream_loc (items (cycle_stream env feedback s cm pj)) (false, ∅)).2)
      as [[_ ->]|[_ [->| ->]]].
  - destruct (ends_cycle _ _ _ _ _ _ Hends) as (Hm & _ & ->).
    unfold cycle_emitted.
    rewrite (matches_count _ _ _ Hm (load_failure_new _ _ _ _ Hf)).
    unfold a_count. simpl. by rewrite (proj1 (load_failure_types _ _ _ _ Hf)).
Qed.

(** The tool calls of a cycle are at most two, [load_code] and then
    [edit_code], both with the sandbox id found in [init_data]; a cycle
    never lists the tools, creates an environment or asks for the display
    copy of the code. *)
Theorem cycle_tool_calls env feedback s :
  (ListTools ∉ cycle_events env feedback s)
  ∧ (tool_calls (cycle_events env feedback s) = []
     ∨ ∃ m sid, init_data s = JObj m ∧ m !! "sandbox_id" = Some sid ∧
         (tool_calls (cycle_events env feedback s)
          = [(T_LOAD_CODE, {[ "sandbox_id" := sid ]})]
          ∨ ∃ ncm, tool_calls (cycle_events env feedback s)
                   = [(T_LOAD_CODE, {[ "sandbox_id" := sid ]});
                      (T_EDIT_CODE, edit_arguments sid ncm)])).
Proof.
  destruct (send_feedback_cases env feedback s)
    as [(sid & cm & pj & Hl)|(tr & e & Hf & Hends)].
  - destruct (ends_cycle _ _ _ _ _ _ (send_feedback_loaded env feedback s _ _ _ Hl))
      as (Hm & _ & _).
    set (st := cycle_stream env feedback s cm pj) in *.
    split.
    + apply (matches_no_list_tools _ _ Hm). unfold cycle_trace.
      rewrite !elem_of_app, !elem_of_cons, elem_of_nil.
      intros [[[=]|[[=]|[]]]|[Ha|Ha]].
      * by destruct (stream_trace_elem _ _ _ _ _ Ha) as (d & [?|[?|?]]).
      * destruct (cycle_tail_cases env sid st (stream_loc (items st) (false, ∅)).2)
          as [[_ Heq]|[_ [Heq|Heq]]]; rewrite Heq in Ha; simpl in Ha; set_solver.
    + right. destruct Hl as (m & Hi & Hk & _). exists m, sid. split; [done|]. split; [done|].
      rewrite (matches_calls _ _ Hm). unfold cycle_trace.
      rewrite !a_calls_app, stream_trace_calls. simpl.
      destruct (cycle_tail_cases env sid st (stream_loc (items st) (false, ∅)).2)
        as [[_ ->]|[_ [->| ->]]]; simpl; [by left | right; by eexists..].
  - destruct (ends_cycle _ _ _ _ _ _ Hends) as (Hm & _ & _).
    split.
    + apply (matches_no_list_tools _ _ Hm). destruct Hf; set_solver.
    + rewrite (matches_calls _ _ Hm).
      destruct Hf as [Hn|m Hi Hk|m sid e' Hi Hk He]; [by left..|].
      right. exists m, sid. split; [done|]. split; [done|]. by left.
Qed.

(** In a cycle that ends without an exception the events are, in this
    order: the first envelope, the [load_code] call, the envelopes of the
    streaming loop, the [edit_code] call and the last envelope. Nothing is
    written while the stream is consumed. *)
Theorem completed_cycle_order env feedback s :
  cycle_result env feedback s = Ok tt →
  ∃ sid ncm d0 mid d1,
    cycle_events env feedback s
    = Yield d0 :: CallTool T_LOAD_CODE {[ "sandbox_id" := sid ]}
        :: (Yield <$> mid)
        ++ [CallTool T_EDIT_CODE (edit_arguments sid ncm); Yield d1].
Proof.
  intros Hok.
  destruct (send_feedback_cases env feedback s)
    as [(sid & cm & pj & Hl)|(tr & e & Hf & Hends)].
  2: { destruct (ends_cycle _ _ _ _ _ _ Hends) as (_ & _ & Hr). congruence. }
  destruct (ends_cycle _ _ _ _ _ _ (send_feedback_loaded env feedback s _ _ _ Hl))
    as (Hm & _ & Hr).
  set (st := cycle_stream env feedback s cm pj) in *.
  unfold cycle_trace in Hm.
  destruct (cycle_tail_cases env sid st (stream_loc (items st) (false, ∅)).2)
    as [[_ Heq]|[_ [Heq|Heq]]]; rewrite Heq in Hm, Hr; simpl in Hr; try congruence.
  simpl in Hm.
  apply Forall2_cons_inv_l in Hm as (e0 & evs0 & (m0 & -> & _) & Hm & ->).
  apply Forall2_cons_inv_l in Hm as (e1 & evs1 & -> & Hm & ->).
  apply Forall2_app_inv_l in Hm as (evs2 & evs3 & Hmid & Htail & ->).
  destruct (stream_trace_yields _ _ _ _ _ Hmid) as (mid & ->).
  apply Forall2_cons_inv_l in Htail as (e2 & evs4 & -> & Htail & ->).
  apply Forall2_cons_inv_l in Htail as (e3 & evs5 & (m1 & -> & _) & Htail & ->).
  apply Forall2_nil_inv_l in Htail as ->.
  by exists sid, (stream_loc (items st) (false, ∅)).2, (to_dict m0), mid, (to_dict m1).
Qed.

Lemma completed_cycle_order_witness :
  ∃ sid ncm d0 mid d1,
    cycle_events demo_env "make it blue" demo_state
    = Yield d0 :: CallTool T_LOAD_CODE {[ "sandbox_id" := sid ]}
        :: (Yield <$> mid)
        ++ [CallTool T_EDIT_CODE (edit_arguments sid ncm); Yield d1].
Proof.
  apply (completed_cycle_order demo_env "make it blue" demo_state).
  vm_compute. reflexivity.
Defined.

Lemma cycle_envs env feedback s sid st :
  ∃ tl, (tl = [] ∨ tl = [(UPDATE_COMPLETED, JObj ∅)])
        ∧ a_envs (cycle_trace env feedback s sid st)
          = (UPDATE_IN_PROGRESS, JObj ∅)
              :: a_envs (stream_trace (plan_msg_id env s) (file_msg_id env s)
                           (items st) (false, ∅)) ++ tl.
Proof.
  unfold cycle_trace. rewrite !a_envs_app. simpl.
  destruct (cycle_tail_cases env sid st (stream_loc (items st) (false, ∅)).2)
    as [[_ ->]|[_ [->| ->]]]; simpl; eexists; (split; [|reflexivity]); auto.
Qed.

(** The plan envelopes of a cycle, in order: one [agent_partial] with the
    plan text of every item that precedes the first completed plan, then
    one [agent_final] with the text of that first completed plan, if the
    stream has one. No [agent_partial] follows the [agent_final]. *)
Theorem plan_envelope_payloads env feedback s sid cm pj :
  loads env s sid cm pj →
  shape <$> plan_envelopes (cycle_emitted env feedback s)
  = a_shape <$> plan_shapes (items (cycle_stream env feedback s cm pj)).
Proof.
  intros Hl.
  destruct (ends_cycle _ _ _ _ _ _ (send_feedback_loaded env feedback s _ _ _ Hl))
    as (Hm & _ & _).
  pose proof (matches_shapes _ _ Hm (cycle_trace_new _ _ _ _ _)) as Hsh.
  unfold plan_envelopes, cycle_emitted.
  rewrite (filter_shapes
             (λ o, o = Some "agent_partial" ∨ o = Some "agent_final") is_plan_type
             _ _ ltac:(intros ty; unfold is_plan_type; split;
                       [intros [[= H]|[= H]];
                        [left; by apply (MessageType_value_inj ty AGENT_PARTIAL)
                        |right; by apply (MessageType_value_inj ty AGENT_FINAL)]
                       |intros [-> | ->]; auto]) Hsh).
  destruct (cycle_envs env feedback s sid (cycle_stream env feedback s cm pj))
    as (tl & Htl & ->).
  rewrite filter_cons, decide_False by (intros [|]; done).
  rewrite filter_app, stream_trace_plan_envs. simpl.
  destruct Htl as [-> | ->]; [by rewrite app_nil_r|].
  rewrite filter_cons, decide_False by (intros [|]; done). by rewrite app_nil_r.
Qed.

(** The [update_file] envelopes of a cycle, in order: one ["Working on
    <path>"] for every path of the stream's file entries, at the path's
    first occurrence and in the order of these first occurrences. *)
Theorem file_envelope_payloads env feedback s sid cm pj :
  loads env s sid cm pj →
  shape <$> file_envelopes (cycle_emitted env feedback s)
  = a_shape <$> file_shapes ∅ (all_files (items (cycle_stream env feedback s cm pj))).
Proof.
  intros Hl.
  destruct (ends_cycle _ _ _ _ _ _ (send_feedback_loaded env feedback s _ _ _ Hl))
    as (Hm & _ & _).
  pose proof (matches_shapes _ _ Hm (cycle_trace_new _ _ _ _ _)) as Hsh.
  unfold file_envelopes, cycle_emitted.
  rewrite (filter_shapes (λ o, o = Some "update_file") (λ ty, ty = UPDATE_FILE)
             _ _ ltac:(intros ty; split;
                       [intros [= H]; by apply (MessageType_value_inj ty UPDATE_FILE)
                       |by intros ->]) Hsh).
  destruct (cycle_envs env feedback s sid (cycle_stream env feedback s cm pj))
    as (tl & Htl & ->).
  rewrite filter_cons, decide_False by done.
  rewrite filter_app, stream_trace_file_envs. simpl. rewrite dom_empty_L.
  destruct Htl as [-> | ->]; [by rewrite app_nil_r|].
  rewrite filter_cons, decide_False by done. by rewrite app_nil_r.
Qed.

Lemma plan_envelope_payloads_witness :
  shape <$> plan_envelopes (cycle_emitted demo_env "make it blue" demo_state)
  = [(Some "agent_partial", Some (text_payload "Edit"));
     (Some "agent_final", Some (text_payload "Edit the app"))].
Proof.
  rewrite (plan_envelope_payloads demo_env "make it blue" demo_state _ _ _ demo_loads).
  reflexivity.
Defined.

Lemma file_envelope_payloads_witness :
  shape <$> file_envelopes (cycle_emitted demo_env "make it blue" demo_state)
  = [(Some "update_file", Some (text_payload "Working on src/App.tsx"))].
Proof.
  rewrite (file_envelope_payloads demo_env "make it blue" demo_state _ _ _ demo_loads).
  vm_compute. reflexivity.
Defined.

(** ** Time stamps *)

Section Ticking.
Variable env : Env.

Lemma ticking_quiet {A} (m : M A) :
  (∀ s, clock_reads (m s).1 = clock_reads s
        ∧ ∃ evs, log (m s).1 = log s ++ evs ∧ emitted evs = []) →
  ticking env m.
Proof.
  intros H s. destruct (H s) as (Hc & evs & Hl & He).
  exists evs. rewrite He. simpl. rewrite Nat.add_0_r. by split.
Qed.

Lemma ticking_ret {A} (a : A) : ticking env (mret a).
Proof. apply ticking_quiet. intros s. split; [done|]. exists []. by rewrite app_nil_r. Qed.

Lemma ticking_raise {A} (e : Exn) : ticking env (raise e : M A).
Proof. apply ticking_quiet. intros s. split; [done|]. exists []. by rewrite app_nil_r. Qed.

Lemma ticking_bind {A B} (m : M A) (k : A → M B) :
  ticking env m → (∀ a, ticking env (k a)) → ticking env (m ≫= k).
Proof.
  intros Hm Hk s. destruct (Hm s) as (evs1 & Hl1 & Hc1 & Ht1).
  unfold mbind, M_bind, bind. destruct (m s) as [s1 [a|e]]; simpl in *.
  2: { by exists evs1. }
  destruct (Hk a s1) as (evs2 & Hl2 & Hc2 & Ht2).
  exists (evs1 ++ evs2).
  assert (emitted (evs1 ++ evs2) = emitted evs1 ++ emitted evs2) as -> by apply omap_app.
  rewrite length_app, seq_app, !fmap_app.
  split; [by rewrite Hl2, Hl1, app_assoc|]. split; [rewrite Hc2, Hc1; lia|].
  rewrite Ht1. f_equal. by rewrite Ht2, Hc1.
Qed.

Lemma ticking_for_in {A L} (body : A → L → M L) (l : list A) :
  (∀ x acc, ticking env (body x acc)) → ∀ acc, ticking env (for_in body l acc).
Proof.
  intros Hbody. induction l as [|x l IH]; intros acc; simpl.
  - apply ticking_ret.
  - apply ticking_bind; [apply Hbody | apply IH].
Qed.

Lemma ticking_yield_new ty d oid : ticking env (yield_new env ty d oid).
Proof.
  intros s. unfold yield_new, Message_new, mbind, M_bind, bind, mret, M_ret, ret.
  destruct oid as [i|]; [destruct (decide (i = EmptyString))|]; simpl.
  all: eexists [_]; split; [reflexivity|]; simpl; split; [lia | reflexivity].
Qed.

Lemma ticking_getitem d k : ticking env (getitem d k).
Proof.
  unfold getitem. destruct d as [| | | |m]; try apply ticking_raise.
  destruct (m !! k); [apply ticking_ret | apply ticking_raise].
Qed.

Lemma ticking_uuid4_str : ticking env (uuid4_str env).
Proof. apply ticking_quiet. intros s. split; [done|]. exists []. by rewrite app_nil_r. Qed.

Lemma ticking_get_state : ticking env get_state.
Proof. apply ticking_quiet. intros s. split; [done|]. exists []. by rewrite app_nil_r. Qed.

Lemma ticking_get_history : ticking env get_history.
Proof. apply ticking_quiet. intros s. split; [done|]. exists []. by rewrite app_nil_r. Qed.

Lemma ticking_add_to_history fb p : ticking env (add_to_history fb p).
Proof. apply ticking_quiet. intros s. split; [done|]. exists []. by rewrite app_nil_r. Qed.

Lemma ticking_session_call_tool name arguments :
  ticking env (session_call_tool env name arguments).
Proof.
  apply ticking_quiet. intros s. unfold session_call_tool, emit, mbind, M_bind, bind.
  destruct (call_tool env name arguments); simpl; (split; [done|]); by eexists [_].
Qed.

Lemma ticking_unpack2 v : ticking env (unpack2 v).
Proof.
  unfold unpack2. destruct (json_iter v) as [[|a [|b [|c l]]]|];
    first [apply ticking_ret | apply ticking_raise].
Qed.

Lemma ticking_dict_items v : ticking env (dict_items v).
Proof. destruct v; first [apply ticking_ret | apply ticking_raise]. Qed.

Lemma ticking_process_file fid file ncm : ticking env (process_file env fid file ncm).
Proof.
  unfold process_file. destruct (decide _); [|apply ticking_ret].
  apply ticking_bind; [apply ticking_yield_new | intros; apply ticking_ret].
Qed.

Lemma ticking_process_partial feedback pid fid p loc :
  ticking env (process_partial env feedback pid fid p loc).
Proof.
  unfold process_partial. apply ticking_bind.
  { destruct (_ && _); [apply ticking_yield_new | apply ticking_ret]. }
  intros _. apply ticking_bind.
  { destruct (_ && _); [|apply ticking_ret].
    apply ticking_bind; [apply ticking_yield_new|]. intros _.
    apply ticking_bind; [apply ticking_add_to_history | intros; apply ticking_ret]. }
  intros sent. apply ticking_bind.
  { apply ticking_for_in. intros; apply ticking_process_file. }
  intros; apply ticking_ret.
Qed.

Lemma ticking_send_feedback feedback : ticking env (send_feedback env feedback).
Proof.
  unfold send_feedback.
  apply ticking_bind; [apply ticking_yield_new | intros _].
  apply ticking_bind; [apply ticking_get_state | intros s0].
  apply ticking_bind; [apply ticking_getitem | intros sid].
  apply ticking_bind; [apply ticking_session_call_tool | intros loaded].
  apply ticking_bind; [apply ticking_unpack2 | intros [cm pj]].
  apply ticking_bind; [apply ticking_dict_items | intros code_files].
  apply ticking_bind; [apply ticking_get_history | intros h].
  apply ticking_bind; [apply ticking_uuid4_str | intros pid].
  apply ticking_bind; [apply ticking_uuid4_str | intros fid].
  apply ticking_bind;
    [apply ticking_for_in; intros; apply ticking_process_partial | intros loc].
  apply ticking_bind;
    [destruct (raises _); [apply ticking_raise | apply ticking_ret] | intros _].
  apply ticking_bind; [apply ticking_get_state | intros s1].
  apply ticking_bind; [apply ticking_getitem | intros sid'].
  apply ticking_bind; [apply ticking_session_call_tool | intros _].
  apply ticking_yield_new.
Qed.
End Ticking.

(** Every envelope of a cycle bears its own clock read, in milliseconds:
    the [i]-th envelope carries the [i]-th read the cycle makes. With a
    clock that does not run backwards, the time stamps therefore do not
    decrease along the cycle. *)
Theorem cycle_timestamps env feedback s :
  dict_timestamp <$> cycle_emitted env feedback s
  = (λ k, Some (time_ms env k))
      <$> seq (clock_reads s) (length (cycle_emitted env feedback s))
  ∧ ((∀ a b, a ≤ b → (time_ns env a ≤ time_ns env b)%Z) →
     ∀ i j t1 t2, i ≤ j →
       (dict_timestamp <$> cycle_emitted env feedback s) !! i = Some (Some t1) →
       (dict_timestamp <$> cycle_emitted env feedback s) !! j = Some (Some t2) →
       (t1 ≤ t2)%Z).
Proof.
  assert (dict_timestamp <$> cycle_emitted env feedback s
          = (λ k, Some (time_ms env k))
              <$> seq (clock_reads s) (length (cycle_emitted env feedback s))) as Hexact.
  { destruct (ticking_send_feedback env feedback s) as (evs & Hl & _ & Ht).
    unfold cycle_emitted, cycle_events. by rewrite Hl, drop_app_length. }
  split; [exact Hexact|].
  intros Hclock i j t1 t2 Hij. rewrite Hexact, !list_lookup_fmap.
  destruct (seq _ _ !! i) as [a|] eqn:Hi; [|done].
  destruct (seq _ _ !! j) as [b|] eqn:Hj; [|done].
  apply lookup_seq in Hi as [-> _]. apply lookup_seq in Hj as [-> _].
  simpl. intros [= <-] [= <-]. unfold time_ms.
  apply Z.div_le_mono; [lia|]. apply Hclock. lia.
Qed.

(** The demo clock advances by a nanosecond per read: the first and the
    last envelope of the demo cycle fall into the same millisecond. *)
Lemma cycle_timestamps_witness :
  (1700000000000 ≤ 1700000000000)%Z.
Proof.
  apply (proj2 (cycle_timestamps demo_env "make it blue" demo_state)) with (i := 0) (j := 4).
  - intros a b Hab. simpl. lia.
  - lia.
  - vm_compute. reflexivity.
  - vm_compute. reflexivity.
Defined.

(** ** [to_dict] *)

(** The dict of an envelope has exactly the keys [id], [type], [data] and
    [timestamp], and the envelope can be read back from it: two envelopes
    with the same dict are the same. *)
Theorem to_dict_round_trip m1 :
  dom (to_dict m1) = {[ "id"; "type"; "data"; "timestamp" ]}
  ∧ ∀ m2, to_dict m1 = to_dict m2 → m1 = m2.
Proof.
  split.
  - unfold to_dict. rewrite !dom_insert_L, dom_empty_L. set_solver.
  - intros m2 Heq.
    assert (dict_id (to_dict m1) = dict_id (to_dict m2)) as Hid by congruence.
    assert (dict_type (to_dict m1) = dict_type (to_dict m2)) as Hty by congruence.
    assert (dict_data (to_dict m1) = dict_data (to_dict m2)) as Hd by congruence.
    assert (dict_timestamp (to_dict m1) = dict_timestamp (to_dict m2)) as Hts by congruence.
    rewrite !dict_id_to_dict in Hid. rewrite !dict_type_to_dict in Hty.
    rewrite !dict_data_to_dict in Hd.
    change (Some (timestamp m1) = Some (timestamp m2)) in Hts.
    injection Hty as Hty. apply MessageType_value_inj in Hty.
    destruct m1, m2; simpl in *. congruence.
Qed.

(** ** History across cycles *)

Lemma paired_app h1 h2 : paired h1 → paired h2 → paired (h1 ++ h2).
Proof.
  intros H1 H2.
  assert ((paired h1 → paired (h1 ++ h2))
          ∧ ∀ u, paired (u :: h1) → paired (u :: h1 ++ h2)) as [Hgoal _]; [|by apply Hgoal].
  clear H1. induction h1 as [|a h1 [IH1 IH2]]; simpl.
  - split; [done|]. by intros u.
  - split.
    + apply IH2.
    + intros u (Hu & Ha & Hrest). repeat split; [done..|]. by apply IH1.
Qed.

(** What one cycle adds to the history: nothing, or one user turn followed
    by one assistant turn. *)
Lemma cycle_history_step env feedback s :
  ∃ t, cycle_history env feedback s = history s ++ t ∧ paired t.
Proof.
  destruct (send_feedback_cases env feedback s)
    as [(sid & cm & pj & Hl)|(tr & e & Hf & Hends)].
  - destruct (ends_cycle _ _ _ _ _ _ (send_feedback_loaded env feedback s _ _ _ Hl))
      as (_ & Hh & _).
    eexists. split; [exact Hh|]. rewrite stream_turns_first. simpl.
    unfold first_complete_turns. by destruct (find _ _).
  - destruct (ends_cycle _ _ _ _ _ _ Hends) as (_ & Hh & _).
    by exists [].
Qed.

(** Cycles keep the history a sequence of user/assistant pairs: starting
    from such a history (the empty one of a new agent, say), it is one
    after any number of cycles, whether they complete or fail. *)
Theorem run_cycles_paired env feedbacks : ∀ s,
  paired (history s) → paired (history (run_cycles env feedbacks s)).
Proof.
  induction feedbacks as [|feedback rest IH]; intros s Hs; simpl; [done|].
  apply IH. destruct (cycle_history_step env feedback s) as (t & Hh & Ht).
  unfold cycle_history in Hh. rewrite Hh. by apply paired_app.
Qed.

Lemma run_cycles_paired_witness :
  paired (history (run_cycles demo_env ["make it blue"; "and bigger"] demo_state)).
Proof. by apply (run_cycles_paired demo_env ["make it blue"; "and bigger"] demo_state). Defined.

(** ** The tools and the agent together *)



(** After a successful [init] whose reply names a sandbox, a cycle does not
    stop at the key lookup and its first tool call loads that sandbox. *)
Theorem init_then_feedback env msg s ts r sid feedback :
  msg !! "type" = Some (JStr "init") →
  list_tools env = Some ts →
  call_tool env T_CREATE_APP_ENVIRONMENT ∅ = Some (JObj r) →
  r !! "sandbox_id" = Some sid →
  let s' := (handler env msg s).1 in
  (∀ k, cycle_result env feedback s' ≠ Raise (KeyError k))
  ∧ head (tool_calls (cycle_events env feedback s'))
    = Some (T_LOAD_CODE, {[ "sandbox_id" := sid ]}).
Proof.
  intros Htype Hlist Hcall Hsid s'.
  assert (init_data s' = JObj r) as Hi.
  { unfold s', handler. rewrite Htype.
    unfold init, load_tools, create_app_environment, session_call_tool, emit,
      set_tools, set_init_data, get_state, Message_new, uuid4_str, read_time_ns,
      mbind, M_bind, bind, mret, M_ret, ret.
    rewrite Hlist. simpl. by rewrite Hcall. }
  clearbody s'.
  destruct (send_feedback_cases env feedback s')
    as [(sid' & cm & pj & Hl)|(tr & e & Hf & Hends)].
  - destruct (ends_cycle _ _ _ _ _ _ (send_feedback_loaded env feedback s' _ _ _ Hl))
      as (Hm & _ & Hr).
    destruct Hl as (m' & Hi' & Hk' & _).
    assert (sid' = sid) as -> by congruence.
    split.
    + intros k. rewrite Hr.
      by destruct (cycle_tail_cases env sid (cycle_stream env feedback s' cm pj)
                  (stream_loc (items (cycle_stream env feedback s' cm pj)) (false, ∅)).2)
        as [[_ ->]|[_ [->| ->]]].
    + by rewrite (matches_calls _ _ Hm).
  - destruct (ends_cycle _ _ _ _ _ _ Hends) as (Hm & _ & Hr).
    destruct Hf as [Hn|m' Hi' Hk'|m' sid' e' Hi' Hk' He].
    + by destruct (Hn r).
    + congruence.
    + assert (sid' = sid) as -> by congruence.
      split; [|by rewrite (matches_calls _ _ Hm)].
      intros k. rewrite Hr. intros [= ->]. set_solver.
Qed.

Lemma init_then_feedback_witness :
  head (tool_calls (cycle_events demo_env "make it blue"
                      (handler demo_env {[ "type" := JStr "init" ]} fresh_state).1))
  = Some (T_LOAD_CODE, {[ "sandbox_id" := JStr "sb-1" ]}).
Proof.
  assert (({[ "type" := JStr "init" ]} : gmap string json) !! "type"
          = Some (JStr "init")) as Htype by reflexivity.
  apply (init_then_feedback demo_env _ fresh_state [] _ (JStr "sb-1") "make it blue"
           Htype eq_refl eq_refl).
  reflexivity.
Defined.

(** ** [load_code] loses no file *)

Lemma slash_free_split a : ∀ b t1 t2,
  slash_free a → slash_free b →
  (t1 = EmptyString ∨ ∃ t, t1 = String "/" t) →
  (t2 = EmptyString ∨ ∃ t, t2 = String "/" t) →
  a +:+ t1 = b +:+ t2 → a = b.
Proof.
  induction a as [|c a IH]; intros [|d b] t1 t2 Ha Hb H1 H2 Heq; simpl in *.
  - done.
  - change (t1 = String d (b +:+ t2)) in Heq. destruct Hb as [Hd _].
    destruct H1 as [->|(t & ->)]; [done|]. by injection Heq as <- _.
  - change (String c (a +:+ t1) = t2) in Heq. destruct Ha as [Hc _].
    destruct H2 as [->|(t & ->)]; [done|]. by injection Heq as -> _.
  - change (String c (a +:+ t1) = String d (b +:+ t2)) in Heq.
    injection Heq as -> Heq. f_equal.
    by eapply (IH b t1 t2); [apply Ha | apply Hb | | |].
Qed.

Lemma string_append_nil_r (a : string) : a +:+ EmptyString = a.
Proof.
  induction a as [|c a IH]; [done|].
  change (String c (a +:+ EmptyString) = String c a). by f_equal.
Qed.

(** The full path of a file below an entry starts with the entry's own
    path, and goes on, if at all, with a separator. *)
Lemma file_in_shape dir e k v :
  file_in dir e k v →
  ∃ t, k = dir +:+ "/" +:+ entry_name e +:+ t
       ∧ (t = EmptyString ∨ ∃ t', t = String "/" t').
Proof.
  induction 1 as [dir name bytes|dir name children c k v Hc Hin (t & -> & Ht)]; simpl.
  - exists EmptyString. split; [|by left]. unfold path_join.
    by rewrite string_append_nil_r.
  - exists ("/" +:+ entry_name c +:+ t). split; [|right; by eexists].
    unfold path_join. by rewrite !string_append_assoc.
Qed.

Lemma NoDup_fmap_eq {A B} (f : A → B) (l : list A) x y :
  NoDup (f <$> l) → x ∈ l → y ∈ l → f x = f y → x = y.
Proof.
  induction l as [|z l IH]; intros Hnd Hx Hy Hf; [by apply elem_of_nil in Hx|].
  rewrite fmap_cons in Hnd. apply NoDup_cons in Hnd as [Hz Hnd].
  apply elem_of_cons in Hx as [->|Hx]; apply elem_of_cons in Hy as [->|Hy]; try done.
  - destruct Hz. rewrite Hf. by apply list_elem_of_fmap_2.
  - destruct Hz. rewrite <- Hf. by apply list_elem_of_fmap_2.
  - by apply IH.
Qed.

Lemma wf_entry_slash_free e : wf_entry e → slash_free (entry_name e).
Proof. by intros [name bytes H|name children H _ _]. Qed.

(** Two files of one well-formed listing with the same full path are the
    same file: they have the same bytes. *)
Lemma file_in_listing_functional dir cs c1 c2 k v1 v2 :
  NoDup (entry_name <$> cs) → Forall wf_entry cs →
  (∀ c, c ∈ cs → ∀ dir' k' v1' v2',
       file_in dir' c k' v1' → file_in dir' c k' v2' → v1' = v2') →
  c1 ∈ cs → c2 ∈ cs →
  file_in dir c1 k v1 → file_in dir c2 k v2 → v1 = v2.
Proof.
  intros Hnd Hwf Hfun H1 H2 Hin1 Hin2.
  assert (entry_name c1 = entry_name c2) as Hname.
  { destruct (file_in_shape _ _ _ _ Hin1) as (t1 & Hk1 & Ht1).
    destruct (file_in_shape _ _ _ _ Hin2) as (t2 & Hk2 & Ht2).
    rewrite Hk1 in Hk2. do 2 apply (inj (String.app _)) in Hk2.
    rewrite Forall_forall in Hwf.
    eapply slash_free_split; [| | exact Ht1 | exact Ht2 | exact Hk2];
      by apply wf_entry_slash_free, Hwf. }
  assert (c1 = c2) as -> by (by eapply NoDup_fmap_eq).
  by eapply Hfun.
Qed.

Lemma file_in_functional e :
  wf_entry e → ∀ dir k v1 v2, file_in dir e k v1 → file_in dir e k v2 → v1 = v2.
Proof.
  induction e as [name bytes|name children IH] using FsEntry_nested_ind;
    intros Hwf dir k v1 v2 H1 H2.
  - inversion H1; inversion H2; congruence.
  - inversion Hwf as [|? ? Hname Hnd Hchildren]; subst.
    inversion H1 as [|? ? ? c1 ? ? Hc1 Hin1]; subst.
    inversion H2 as [|? ? ? c2 ? ? Hc2 Hin2]; subst.
    eapply (file_in_listing_functional _ children c1 c2); try done.
    intros c Hc. rewrite Forall_forall in IH, Hchildren.
    by apply IH, Hchildren.
Qed.

(** In a sandbox whose code root is a well-formed tree, [load_code] maps
    the full path of every file to that file's own bytes: no file is left
    out and none is shadowed by another. *)
Theorem load_code_keeps_every_file remote sid sandbox fm pj e k v :
  remote !! sid = Some sandbox →
  wf_listing (app_src sandbox) →
  tools_load_code remote sid = Some (fm, pj) →
  e ∈ app_src sandbox → file_in DEFAULT_CODE_PATH e k v →
  fm !! k = Some v.
Proof.
  intros Hsb [Hnd Hwf] Htool He Hin.
  assert (fm = _process_directory DEFAULT_CODE_PATH (app_src sandbox) ∅) as ->.
  { unfold tools_load_code in Htool. rewrite Hsb in Htool. simpl in Htool.
    destruct (package_json_file sandbox); simpl in Htool; congruence. }
  pose proof (process_directory_complete _ _ _ _ _ He Hin ∅) as [v' Hv']%elem_of_dom.
  rewrite Hv'. f_equal.
  destruct (process_directory_sound _ _ _ _ _ Hv') as [Hempty|(e' & He' & Hin')];
    [by rewrite lookup_empty in Hempty|].
  eapply (file_in_listing_functional _ (app_src sandbox) e' e); try done.
  intros c Hc. rewrite Forall_forall in Hwf. by apply file_in_functional, Hwf.
Qed.

Lemma demo_sandbox_wf : wf_listing (app_src demo_sandbox).
Proof.
  split; simpl.
  - repeat constructor; set_solver.
  - repeat constructor; simpl; try done; set_solver.
Qed.

Lemma load_code_keeps_every_file_witness :
  (<["/app/src/components/Button.tsx" := "export const Button"]>
     {[ "/app/src/App.tsx" := "export default App" ]} : gmap string string)
    !! "/app/src/components/Button.tsx"
  = Some "export const Button".
Proof.
  eapply (load_code_keeps_every_file demo_remote "sb-1" demo_sandbox _ "{}"
            (FsDir "components" [FsFile "Button.tsx" "export const Button"])).
  - reflexivity.
  - apply demo_sandbox_wf.
  - vm_compute. reflexivity.
  - simpl. set_solver.
  - eapply file_in_dir; [by left|]. apply file_in_file.
Defined.

(** A cycle stops in the load stage, before any stream is opened, when the
    server does not know the agent's sandbox or cannot read the sandbox's
    [package.json]: it has emitted [update_in_progress] only, written
    nothing and left the history alone. *)
Theorem cycle_aborts_on_failed_load env remote feedback s m sid :
  serves_load_code env remote →
  init_data s = JObj m → m !! "sandbox_id" = Some (JStr sid) →
  (remote !! sid = None
   ∨ ∃ sandbox, remote !! sid = Some sandbox ∧ package_json_file sandbox = None) →
  cycle_result env feedback s = Raise (ToolError T_LOAD_CODE)
  ∧ dict_type <$> cycle_emitted env feedback s = [Some "update_in_progress"]
  ∧ cycle_writes env feedback s = []
  ∧ cycle_history env feedback s = history s.
Proof.
  intros Hserve Hinit Hsid Hbad.
  assert (call_tool env T_LOAD_CODE {[ "sandbox_id" := JStr sid ]} = None) as Hcall.
  { rewrite Hserve. unfold tools_load_code.
    destruct Hbad as [->|(sb & -> & Hpj)]; [done|]. simpl. by rewrite Hpj. }
  assert (ends (send_feedback env feedback) s
            [ANew UPDATE_IN_PROGRESS (JObj ∅) None;
             ALit (CallTool T_LOAD_CODE {[ "sandbox_id" := JStr sid ]})] []
            (Raise (ToolError T_LOAD_CODE))) as Hends.
  { unfold send_feedback.
    eapply ends_seq with (t1 := []);
      [apply runs_yield_new | intros s1 Hi1 _ _ | reflexivity | reflexivity].
    apply ends_get_state. rewrite Hi1, Hinit. unfold getitem. rewrite Hsid.
    apply ends_ret_bind, ends_raise_bind, runs_call_raise, Hcall. }
  destruct (ends_cycle _ _ _ _ _ _ Hends) as (Hm & Hh & Hr).
  split; [done|]. split; [|split].
  - unfold cycle_emitted. rewrite (matches_types _ _ Hm); [done|].
    intros a. rewrite !elem_of_cons, elem_of_nil. by intros [->|[->|[]]].
  - unfold cycle_writes. by rewrite (matches_edits _ _ Hm).
  - by rewrite Hh, app_nil_r.
Qed.

Lemma cycle_aborts_on_failed_load_witness :
  cycle_result demo_env "make it blue"
    (mkState [] (JObj {[ "sandbox_id" := JStr "gone" ]}) [] 0 0 [])
  = Raise (ToolError T_LOAD_CODE).
Proof.
  eapply (cycle_aborts_on_failed_load demo_env demo_remote "make it blue" _ _ "gone").
  - apply demo_serves.
  - reflexivity.
  - reflexivity.
  - by left.
Defined.

(** ** The display copy of the code *)

Lemma DEntry_nested_ind (P : DEntry → Prop) :
  (∀ name text, P (DFile name text)) →
  (∀ name, P (DDir name None)) →
  (∀ name children, Forall P children → P (DDir name (Some children))) →
  ∀ e, P e.
Proof.
  intros Hfile Hnone Hdir. fix IH 1. intros [name text|name [children|]].
  - apply Hfile.
  - apply Hdir. induction children as [|c cs IHcs]; constructor; [apply IH | exact IHcs].
  - apply Hnone.
Qed.

Lemma display_entry_sound e : ∀ dir fm k v,
  display_entry dir e fm !! k = Some v →
  fm !! k = Some v ∨ ∃ full, shown_in dir e full v ∧ k = relative_path full.
Proof.
  induction e as [name text|name|name children IH] using DEntry_nested_ind;
    intros dir fm k v; simpl.
  - destruct (decide (suffix name ∈ display_suffixes)) as [Hs|]; [|by left].
    destruct text as [text|]; [|by left].
    rewrite lookup_insert.
    destruct (decide (relative_path (path_join dir name) = k)) as [<-|]; [|by left].
    intros [= <-]. right. eexists. split; [by constructor | done].
  - by left.
  - revert fm. induction IH as [|c cs Hc _ IHcs]; intros fm; simpl; [by left|].
    intros H. destruct (IHcs _ H) as [H'|(full & Hin & ->)].
    + destruct (Hc _ _ _ _ H') as [?|(full & Hin & ->)]; [by left|].
      right. exists full. split; [|done]. eapply shown_dir; [|exact Hin]. by left.
    + right. exists full. split; [|done].
      inversion Hin; subst. eapply shown_dir; [|eassumption]. by right.
Qed.

Lemma display_entry_dom_mono e : ∀ dir fm, dom fm ⊆ dom (display_entry dir e fm).
Proof.
  induction e as [name text|name|name children IH] using DEntry_nested_ind;
    intros dir fm; simpl.
  - destruct (decide _); [|done]. destruct text; [|done].
    rewrite dom_insert. set_solver.
  - done.
  - revert fm. induction IH as [|c cs Hc _ IHcs]; intros fm; simpl; [done|].
    etrans; [apply Hc | apply IHcs].
Qed.

Lemma fold_display_dom_mono dir cs : ∀ fm,
  dom fm ⊆ dom (fold_left (λ fm c, display_entry dir c fm) cs fm).
Proof.
  induction cs as [|c cs IH]; intros fm; simpl; [done|].
  etrans; [apply display_entry_dom_mono | apply IH].
Qed.

Lemma display_entry_complete dir e full v :
  shown_in dir e full v → ∀ fm, relative_path full ∈ dom (display_entry dir e fm).
Proof.
  induction 1 as [dir name text Hs|dir name children c k v Hc Hin IH]; intros fm; simpl.
  - rewrite decide_True by done. rewrite dom_insert. set_solver.
  - revert fm. induction children as [|c' cs IHcs]; intros fm;
      [by apply elem_of_nil in Hc|]. simpl.
    apply elem_of_cons in Hc as [<-|Hc].
    + apply (fold_display_dom_mono _ _ _ (relative_path k)), IH.
    + by apply IHcs.
Qed.

Lemma shown_in_path dir e full v :
  shown_in dir e full v → ∃ rest, full = dir +:+ "/" +:+ rest.
Proof.
  induction 1 as [dir name text Hs|dir name children c k v Hc Hin (rest & ->)].
  - by exists name.
  - exists (name +:+ "/" +:+ rest). unfold path_join.
    by rewrite !string_append_assoc.
Qed.

(** *** [str.replace] *)

Lemma prefix_app old : ∀ rest, String.prefix old (old +:+ rest) = true.
Proof.
  induction old as [|c old IH]; intros rest; [by destruct rest|].
  change (String.prefix (String c old) (String c (old +:+ rest)) = true). simpl.
  destruct (Ascii.ascii_dec c c); [apply IH | done].
Qed.

Lemma str_replace_go_skip old new o : ∀ rest,
  str_replace_go old new (String.length o) (o +:+ rest) = str_replace_go old new 0 rest.
Proof.
  induction o as [|c o IH]; intros rest; [by destruct rest|].
  change (str_replace_go old new (S (String.length o)) (String c (o +:+ rest))
          = str_replace_go old new 0 rest).
  simpl. apply IH.
Qed.

(** A leading occurrence is replaced, and the search goes on behind it. *)
Lemma str_replace_prefix c old new rest :
  str_replace (String c old) new (String c old +:+ rest)
  = new +:+ str_replace (String c old) new rest.
Proof.
  unfold str_replace.
  change (String c old +:+ rest) with (String c (old +:+ rest)).
  cbn [str_replace_go].
  change (String c (old +:+ rest)) with (String c old +:+ rest).
  rewrite prefix_app. f_equal. simpl. rewrite Nat.sub_0_r. apply str_replace_go_skip.
Qed.

(** Without an occurrence nothing changes. *)
Lemma str_replace_absent old new s :
  occurs old s = false → str_replace old new s = s.
Proof.
  unfold str_replace. induction s as [|c s IH]; intros Hocc; [done|].
  change (String.prefix old (String c s) || occurs old s = false) in Hocc.
  apply orb_false_elim in Hocc as [Hp Hrest].
  cbn [str_replace_go]. rewrite Hp. f_equal. by apply IH.
Qed.

(** ** What the display tool shows *)

(** Whatever [get_code_for_display] puts into [files] is the root
    [package.json] under the key ["package.json"], or the text of a readable
    file of the code tree whose suffix is on the safe-list, under that file's
    path with every ["/app/src/"] removed. Files that cannot be read,
    directories that cannot be listed and other suffixes leave no entry. *)
Theorem display_files_sound sandbox k v :
  display_files sandbox !! k = Some v →
  (k = "package.json" ∧ d_package_json sandbox = Some v)
  ∨ ∃ listing e full,
      d_app_src sandbox = Some listing ∧ e ∈ listing
      ∧ shown_in DEFAULT_CODE_PATH e full v ∧ k = relative_path full.
Proof.
  unfold display_files.
  assert (display_directory DEFAULT_CODE_PATH (d_app_src sandbox) ∅ !! k = Some v →
          ∃ listing e full,
            d_app_src sandbox = Some listing ∧ e ∈ listing
            ∧ shown_in DEFAULT_CODE_PATH e full v ∧ k = relative_path full) as Hwalk.
  { unfold display_directory. destruct (d_app_src sandbox) as [listing|]; [|done].
    intros H. exists listing.
    assert (∀ fm, fold_left (λ fm c, display_entry DEFAULT_CODE_PATH c fm) listing fm !! k
                  = Some v →
                  fm !! k = Some v
                  ∨ ∃ e full, e ∈ listing ∧ shown_in DEFAULT_CODE_PATH e full v
                              ∧ k = relative_path full) as Hfold.
    { clear H. induction listing as [|c cs IH]; intros fm; simpl; [by left|].
      intros H. destruct (IH _ H) as [H'|(e & full & He & Hin & ->)].
      - destruct (display_entry_sound _ _ _ _ _ H') as [?|(full & Hin & ->)]; [by left|].
        right. exists c, full. split; [by left | done].
      - right. exists e, full. split; [by right | done]. }
    destruct (Hfold _ H) as [Hempty|(e & full & He & Hin & Hk)];
      [by rewrite lookup_empty in Hempty|].
    by exists e, full. }
  destruct (d_package_json sandbox) as [pj|]; [|by right; apply Hwalk].
  rewrite lookup_insert. destruct (decide ("package.json" = k)) as [<-|].
  - intros [= <-]. by left.
  - intros H. right. by apply Hwalk.
Qed.

Lemma display_files_sound_witness :
  ("App.tsx" = "package.json" ∧ d_package_json demo_dsandbox = Some "export default App")
  ∨ ∃ listing e full,
      d_app_src demo_dsandbox = Some listing ∧ e ∈ listing
      ∧ shown_in DEFAULT_CODE_PATH e full "export default App"
      ∧ "App.tsx" = relative_path full.
Proof.
  apply (display_files_sound demo_dsandbox "App.tsx" "export default App").
  vm_compute. reflexivity.
Defined.

(** Every readable file of the code tree with a safe-listed suffix has its
    key in [files], and a readable root [package.json] always holds the key
    ["package.json"], also against a [package.json] of the code tree. *)
Theorem display_files_complete sandbox :
  (∀ listing e full v,
     d_app_src sandbox = Some listing → e ∈ listing →
     shown_in DEFAULT_CODE_PATH e full v →
     relative_path full ∈ dom (display_files sandbox))
  ∧ (∀ package_json, d_package_json sandbox = Some package_json →
       display_files sandbox !! "package.json" = Some package_json).
Proof.
  split.
  - intros listing e full v Hsrc He Hin. unfold display_files, display_directory.
    rewrite Hsrc. clear Hsrc.
    assert (∀ fm, relative_path full
                  ∈ dom (fold_left (λ fm c, display_entry DEFAULT_CODE_PATH c fm)
                                   listing fm)) as Hfold.
    { induction listing as [|c cs IH]; intros fm; [by apply elem_of_nil in He|]. simpl.
      apply elem_of_cons in He as [<-|He].
      - apply (fold_display_dom_mono _ _ _ (relative_path full)).
        by eapply display_entry_complete.
      - by apply IH. }
    destruct (d_package_json sandbox); [|apply Hfold].
    rewrite dom_insert. apply elem_of_union_r, Hfold.
  - intros pj Hpj. unfold display_files. rewrite Hpj. apply lookup_insert_eq.
Qed.

Lemma display_files_complete_witness :
  "components/Button.tsx" ∈ dom (display_files demo_dsandbox)
  ∧ display_files demo_dsandbox !! "package.json" = Some "{outer}".
Proof.
  destruct (display_files_complete demo_dsandbox) as [Hfile Hpj]. split.
  - change "components/Button.tsx"
      with (relative_path "/app/src/components/Button.tsx").
    eapply (Hfile _ (DDir "components"
                       (Some [DFile "Button.tsx" (Some "export const Button")]))).
    + reflexivity.
    + apply list_elem_of_In. simpl. tauto.
    + eapply shown_dir; [by left|].
      apply (shown_file "/app/src/components" "Button.tsx").
      change (suffix "Button.tsx") with ".tsx". by left.
  - by apply Hpj.
Defined.

(** The key of a shown file is its path relative to the code root, as long
    as ["/app/src/"] does not occur again inside that relative path. *)
Theorem display_key_is_relative e full v :
  shown_in DEFAULT_CODE_PATH e full v →
  ∃ rest, full = "/app/src/" +:+ rest
          ∧ (occurs "/app/src/" rest = false → relative_path full = rest).
Proof.
  intros Hin. destruct (shown_in_path _ _ _ _ Hin) as (rest & ->).
  exists rest. unfold DEFAULT_CODE_PATH.
  assert ("/app/src" +:+ "/" +:+ rest = "/app/src/" +:+ rest) as Heq by done.
  split; [done|]. intros Hocc. rewrite Heq. unfold relative_path, DEFAULT_CODE_PATH.
  change ("/app/src" +:+ "/") with (String "/" "app/src/").
  rewrite str_replace_prefix. change (EmptyString +:+ ?x) with x.
  by apply str_replace_absent.
Qed.

Lemma display_key_is_relative_witness :
  ∃ rest, "/app/src/components/Button.tsx" = "/app/src/" +:+ rest
          ∧ (occurs "/app/src/" rest = false
             → relative_path "/app/src/components/Button.tsx" = rest).
Proof.
  apply (display_key_is_relative
           (DDir "components" (Some [DFile "Button.tsx" (Some "export const Button")]))
           "/app/src/components/Button.tsx" "export const Button").
  eapply shown_dir; [by left|].
  apply (shown_file "/app/src/components" "Button.tsx").
  change (suffix "Button.tsx") with ".tsx". by left.
Defined.
